(** * Loop coalescing tutorial kernel (loop_coalesce.cpp)

    A shallow embedding of the SYCL FPGA tutorial
    [DirectProgramming/C++SYCL_FPGA/Tutorials/Features/loop_coalesce]:
    the 4x4 matrix-multiply kernel [KernelCompute<coalesce_factor>], its
    host wrapper [MatrixMultiply] and the host [main] that initialises the
    inputs, runs both specialisations and validates the results.

    Conventions of the embedding:
    - [size_t] is a 64-bit unsigned integer: a [Z] whose arithmetic wraps
      modulo 2^64;
    - [float] is IEEE 754 binary32, given by the executable specification
      [SpecFloat] of the standard library at precision 24 / emax 128
      (round to nearest even); the kernel itself is written over an
      arbitrary arithmetic so that it can be run symbolically;
    - an indexing operation of the source outside the bounds of its
      vector, accessor or array is undefined behaviour and is rendered as
      [None];
    - the contents of uninitialised storage (the local arrays [a], [b],
      [tmp] and the [no_init] output accessor) are explicit parameters. *)

From Stdlib Require Import ZArith List Lia Bool String.
From Stdlib Require Import Floats.SpecFloat.
From stdpp Require Import base option list.

Local Open Scope Z_scope.

(** ** [size_t] arithmetic *)

Definition size_t := Z.

Definition size_modulus : Z := 2 ^ 64.

Definition size_wrap (x : Z) : size_t := x mod size_modulus.

Definition size_add (x y : size_t) : size_t := size_wrap (x + y).

Definition size_mul (x y : size_t) : size_t := size_wrap (x * y).

(** [constexpr size_t kNumRows = 4; kNumCols = 4;
    kNumElements = kNumRows * kNumCols;] *)
Definition kNumRows : size_t := 4.
Definition kNumCols : size_t := 4.
Definition kNumElements : size_t := size_mul kNumRows kNumCols.

(** ** Counted loops

    [for (size_t i = 0; i < bound; ++i) body] where [body] does not assign
    [i]: the body runs [bound] times, the counter starting at 0 and being
    incremented (in [size_t]) after each iteration.  The loop state is
    threaded through; an iteration that hits undefined behaviour stops
    the whole loop with [None]. *)

Section Loops.
Context {St : Type}.

Fixpoint for_iter (trips : nat) (i : size_t)
         (body : size_t -> St -> option St) (s : St) : option St :=
  match trips with
  | O => Some s
  | S n => s' ← body i s; for_iter n (size_add i 1) body s'
  end.

Definition for_loop (bound : size_t)
           (body : size_t -> St -> option St) (s : St) : option St :=
  for_iter (Z.to_nat bound) 0 body s.

(** The same loop read statement by statement: test [i < bound], run the
    body, increment.  [fuel] bounds the number of tests; [None] means the
    fuel ran out, [Some None] that the body hit undefined behaviour.
    [for_loop_test] below shows that [for_loop] is this loop. *)
Fixpoint for_test (fuel : nat) (i bound : size_t)
         (body : size_t -> St -> option St) (s : St) : option (option St) :=
  match fuel with
  | O => None
  | S fuel' =>
      if i <? bound
      then match body i s with
           | Some s' => for_test fuel' (size_add i 1) bound body s'
           | None => Some None
           end
      else Some (Some s)
  end.

(** Running a body over an explicit list of index values. *)
Fixpoint run_over {X : Type} (body : X -> St -> option St)
         (xs : list X) (s : St) : option St :=
  match xs with
  | [] => Some s
  | x :: xs' => s' ← body x s; run_over body xs' s'
  end.

(** The loop nest the attribute is attached to, as written:
    [for (i < rows) for (j < cols) body(i, j)]. *)
Definition nested_loop (rows cols : size_t)
           (body : size_t -> size_t -> St -> option St) : St -> option St :=
  for_loop rows (fun i => for_loop cols (fun j => body i j)).
End Loops.

(** Modelled from the spec: the index recovery of a two-level merge with
    inner bound [cols].  The repository only carries the attribute
    [[intel::loop_coalesce(coalesce_factor)]]; the merged loop is produced
    by the synthesis tool.  The spec gives it as "outer index = c / B2,
    inner index = c % B2". *)
Definition delinearize (cols : size_t) (c : size_t) : size_t * size_t :=
  (c / cols, c mod cols).

(** Modelled from the spec: the merged form of the two outer levels, a
    single counter [c] over [[0, rows*cols)] from which the two indices are
    recovered at each step. *)
Definition coalesced_loop {St : Type} (rows cols : size_t)
           (body : size_t -> size_t -> St -> option St) : St -> option St :=
  for_loop (size_mul rows cols)
           (fun c => let '(i, j) := delinearize cols c in body i j).

(** The two specialisations the program instantiates:
    [MatrixMultiply<1>] and [MatrixMultiply<2>]. *)
Inductive coalesce_factor : Set := factor_1 | factor_2.

(** [[intel::loop_coalesce(coalesce_factor)]] on a nest of depth at least
    two: factor 1 leaves the nest as written, factor 2 merges the two
    outer levels. *)
Definition loop_coalesce {St : Type} (cf : coalesce_factor)
           (rows cols : size_t)
           (body : size_t -> size_t -> St -> option St) : St -> option St :=
  match cf with
  | factor_1 => nested_loop rows cols body
  | factor_2 => coalesced_loop rows cols body
  end.

(** The sequence of index pairs a loop scheme hands to its body. *)
Definition visit_order
           (scheme : (size_t -> size_t -> list (size_t * size_t) ->
                      option (list (size_t * size_t))) ->
                     list (size_t * size_t) -> option (list (size_t * size_t)))
  : option (list (size_t * size_t)) :=
  scheme (fun i j visited => Some (visited ++ [(i, j)])) [].

(** Index lists used to reason about the loops. *)
Definition iota (n : nat) : list size_t := map Z.of_nat (seq 0 n).

Definition unmerged_pairs (rows cols : nat) : list (size_t * size_t) :=
  flat_map (fun i => map (pair i) (iota cols)) (iota rows).

Definition merged_pairs (rows cols : nat) : list (size_t * size_t) :=
  map (delinearize (Z.of_nat cols)) (iota (rows * cols)).

(** ** Floating-point arithmetic of the kernel

    The kernel uses three things of [float]: the constant [0.0f], [+] and
    [*].  They are kept behind an interface so that the kernel can be run
    on symbolic inputs; [binary32_arith] below is the instance the program
    is compiled with.  [sum += x * y] is read as written: a rounded
    product followed by a rounded sum, not a fused multiply-add. *)

Class FloatArith (F : Type) : Type := {
  fzero : F;
  fadd : F -> F -> F;
  fmul : F -> F -> F
}.

(** ** The device kernel [KernelCompute<coalesce_factor>] *)

Module Kernel.
Section WithArith.
Context {F : Type} `{FloatArith F}.

(** [float x[kNumRows][kNumCols]]: a total map from index pairs to
    cells; [array_get] and [array_set] check the bounds. *)
Definition local_array : Type := size_t -> size_t -> F.

Definition in_bounds (i j : size_t) : bool :=
  (0 <=? i) && (i <? kNumRows) && (0 <=? j) && (j <? kNumCols).

Definition array_get (x : local_array) (i j : size_t) : option F :=
  if in_bounds i j then Some (x i j) else None.

Definition array_set (x : local_array) (i j : size_t) (v : F)
  : option local_array :=
  if in_bounds i j
  then Some (fun i' j' => if (i' =? i) && (j' =? j) then v else x i' j')
  else None.

(** [accessor[idx]] as an rvalue and as an lvalue. *)
Definition accessor_get (acc : list F) (i : size_t) : option F :=
  acc !! Z.to_nat i.

Definition accessor_put (acc : list F) (i : size_t) (v : F)
  : option (list F) :=
  if (Z.to_nat i <? length acc)%nat
  then Some (<[Z.to_nat i := v]> acc)
  else None.

(** Everything the kernel body can read or write: the three accessors
    captured by the lambda and its local variables. *)
Record state : Type := {
  accessor_matrix_a : list F;
  accessor_matrix_b : list F;
  accessor_res : list F;
  idx : size_t;
  a : local_array;
  b : local_array;
  tmp : local_array
}.

Definition set_idx (s : state) (v : size_t) : state :=
  {| accessor_matrix_a := accessor_matrix_a s;
     accessor_matrix_b := accessor_matrix_b s;
     accessor_res := accessor_res s;
     idx := v; a := a s; b := b s; tmp := tmp s |}.

Definition set_tmp (s : state) (v : local_array) : state :=
  {| accessor_matrix_a := accessor_matrix_a s;
     accessor_matrix_b := accessor_matrix_b s;
     accessor_res := accessor_res s;
     idx := idx s; a := a s; b := b s; tmp := v |}.

Definition set_a (s : state) (v : local_array) : state :=
  {| accessor_matrix_a := accessor_matrix_a s;
     accessor_matrix_b := accessor_matrix_b s;
     accessor_res := accessor_res s;
     idx := idx s; a := v; b := b s; tmp := tmp s |}.

Definition set_b (s : state) (v : local_array) : state :=
  {| accessor_matrix_a := accessor_matrix_a s;
     accessor_matrix_b := accessor_matrix_b s;
     accessor_res := accessor_res s;
     idx := idx s; a := a s; b := v; tmp := tmp s |}.

Definition set_res (s : state) (v : list F) : state :=
  {| accessor_matrix_a := accessor_matrix_a s;
     accessor_matrix_b := accessor_matrix_b s;
     accessor_res := v;
     idx := idx s; a := a s; b := b s; tmp := tmp s |}.

(** Load phase, body of the nest:
    [a[i][j] = accessor_matrix_a[idx]; b[i][j] = accessor_matrix_b[idx];
     tmp[i][j] = 0.0; idx++;] *)
Definition load_body (i j : size_t) (s : state) : option state :=
  va ← accessor_get (accessor_matrix_a s) (idx s);
  a' ← array_set (a s) i j va;
  let s := set_a s a' in
  vb ← accessor_get (accessor_matrix_b s) (idx s);
  b' ← array_set (b s) i j vb;
  let s := set_b s b' in
  tmp' ← array_set (tmp s) i j fzero;
  let s := set_tmp s tmp' in
  Some (set_idx s (size_add (idx s) 1)).

(** Multiply phase, body of the reduction loop:
    [sum += a[i][k] * b[k][j];] *)
Definition dot_step (s : state) (i j k : size_t) (sum : F) : option F :=
  x ← array_get (a s) i k;
  y ← array_get (b s) k j;
  Some (fadd sum (fmul x y)).

(** Multiply phase, body of the nest:
    [float sum = 0.0f; for (k < kNumCols) ...; tmp[i][j] = sum;] *)
Definition multiply_body (i j : size_t) (s : state) : option state :=
  sum ← for_loop kNumCols (dot_step s i j) fzero;
  tmp' ← array_set (tmp s) i j sum;
  Some (set_tmp s tmp').

(** Store phase, body of the nest:
    [accessor_res[idx] = tmp[i][j]; idx++;] *)
Definition store_body (i j : size_t) (s : state) : option state :=
  v ← array_get (tmp s) i j;
  res' ← accessor_put (accessor_res s) (idx s) v;
  let s := set_res s res' in
  Some (set_idx s (size_add (idx s) 1)).

(** The three loop nests of the [single_task] lambda.  All three carry
    the attribute with the same factor; [idx] is set to 0 by its
    declaration before the first nest and by [idx = 0;] before the
    third. *)
Definition load_phase (cf : coalesce_factor) (s : state) : option state :=
  loop_coalesce cf kNumRows kNumCols load_body (set_idx s 0).

Definition multiply_phase (cf : coalesce_factor) (s : state)
  : option state :=
  loop_coalesce cf kNumRows kNumCols multiply_body s.

Definition store_phase (cf : coalesce_factor) (s : state) : option state :=
  loop_coalesce cf kNumRows kNumCols store_body (set_idx s 0).

(** The body of the [single_task] lambda. *)
Definition KernelCompute (cf : coalesce_factor) (s : state) : option state :=
  s ← load_phase cf s;
  s ← multiply_phase cf s;
  store_phase cf s.

(** The input buffers of [t] hold what those of [s] hold. *)
Definition same_inputs (s t : state) : Prop :=
  accessor_matrix_a t = accessor_matrix_a s
  /\ accessor_matrix_b t = accessor_matrix_b s.

(** [t] differs from [s] in [tmp] at most. *)
Definition multiply_frame (s t : state) : Prop :=
  a t = a s /\ b t = b s /\ idx t = idx s
  /\ accessor_matrix_a t = accessor_matrix_a s
  /\ accessor_matrix_b t = accessor_matrix_b s
  /\ accessor_res t = accessor_res s.

(** The cells of a local array in memory order. *)
Definition row_major (x : local_array) : list F :=
  map (fun c => x (c / kNumCols) (c mod kNumCols))
      (iota (Z.to_nat kNumElements)).

(** Storage whose initial contents the program does not determine: the
    three local arrays and, because the output accessor is created with
    [no_init], the device copy of the output buffer. *)
Record indeterminate : Type := {
  junk_a : local_array;
  junk_b : local_array;
  junk_tmp : local_array;
  junk_res : nat -> F
}.

(** State in which the submitted kernel starts: buffers over the two
    input vectors and over [res] (same size, contents discarded). *)
Definition submit (matrix_a matrix_b res : list F) (u : indeterminate)
  : state :=
  {| accessor_matrix_a := matrix_a;
     accessor_matrix_b := matrix_b;
     accessor_res := map (junk_res u) (seq 0 (length res));
     idx := 0;
     a := junk_a u; b := junk_b u; tmp := junk_tmp u |}.

(** [MatrixMultiply<coalesce_factor>(matrix_a, matrix_b, res)] on an
    available device: the value of [res] after the call (the buffer is
    written back when it goes out of scope).  [matrix_a] and [matrix_b]
    are [const] references. *)
Definition MatrixMultiply (cf : coalesce_factor)
           (matrix_a matrix_b res : list F) (u : indeterminate)
  : option (list F) :=
  s ← KernelCompute cf (submit matrix_a matrix_b res u);
  Some (accessor_res s).
End WithArith.
End Kernel.

(** ** The sum of the contract, written from the spec

    [Result[i*N+j] = sum over m in [0,N) of A[i*N+m] * B[m*N+j]], N = 4,
    accumulated in [float] from 0 in increasing [m]. *)
Section SpecSum.
Context {F : Type} `{FloatArith F}.

Definition spec_term (A B : list F) (i j m : Z) : option F :=
  x ← A !! Z.to_nat (i * 4 + m);
  y ← B !! Z.to_nat (m * 4 + j);
  Some (fmul x y).

(** The sum of the first [n] terms. *)
Definition partial_sum (A B : list F) (i j : Z) (n : nat) : option F :=
  run_over (fun m acc => t ← spec_term A B i j m; Some (fadd acc t))
           (iota n) fzero.

Definition spec_sum (A B : list F) (i j : Z) : option F :=
  partial_sum A B i j 4.

(** The whole output, row-major. *)
Definition spec_result (A B : list F) : option (list F) :=
  mapM (fun c => spec_sum A B (c / 4) (c mod 4)) (iota 16).
End SpecSum.

(** ** IEEE 754 binary32, the [float] of the program *)

Module Binary32.
Definition prec : Z := 24.
Definition emax : Z := 128.

Definition f32 : Type := spec_float.

Definition zero : f32 := S754_zero false.
Definition add (x y : f32) : f32 := SFadd prec emax x y.
Definition mul (x y : f32) : f32 := SFmul prec emax x y.

(** Conversion of an integer to [float] (round to nearest even). *)
Definition of_Z (z : Z) : f32 := binary_normalize prec emax z 0 false.

(** [x == y] and [x != y] on [float]. *)
Definition eqb (x y : f32) : bool := SFeqb x y.
Definition neq (x y : f32) : bool := negb (SFeqb x y).

(** The integer a float denotes, when it denotes one. *)
Definition to_Z (x : f32) : option Z :=
  match x with
  | S754_zero _ => Some 0
  | S754_finite s m e =>
      if 0 <=? e
      then Some (cond_Zopp s (Z.pos m * 2 ^ e))
      else if Z.pos m mod 2 ^ (- e) =? 0
           then Some (cond_Zopp s (Z.pos m / 2 ^ (- e)))
           else None
  | _ => None
  end.
End Binary32.

#[export] Instance binary32_arith : FloatArith Binary32.f32 := {|
  fzero := Binary32.zero;
  fadd := Binary32.add;
  fmul := Binary32.mul
|}.

(** ** The host program *)

(** [v[i]] on a [std::vector], as an rvalue and as an lvalue. *)
Definition vector_load {A : Type} (v : list A) (i : size_t) : option A :=
  v !! Z.to_nat i.

Definition vector_store {A : Type} (v : list A) (i : size_t) (x : A)
  : option (list A) :=
  if (Z.to_nat i <? length v)%nat then Some (<[Z.to_nat i := x]> v) else None.

(** [std::vector<float> v(kNumElements)]: value-initialised elements. *)
Definition new_vector : list Binary32.f32 :=
  replicate (Z.to_nat kNumElements) Binary32.zero.

(** Lines 127-135 of [main]: "Specify the matrices to be multiplied".
    The state of the loop is the pair [(matrix_a, matrix_b)]; the literal
    [1.0] and the [size_t] value [i * j + 1] are converted to [float] by
    the assignments. *)
Definition init_matrices
  : option (list Binary32.f32 * list Binary32.f32) :=
  for_loop kNumRows
    (fun i '(matrix_a, matrix_b) =>
       let pos := size_mul i kNumCols in
       matrix_a ← vector_store matrix_a (size_add i pos) (Binary32.of_Z 1);
       matrix_b ← for_loop kNumCols
                    (fun j matrix_b =>
                       vector_store matrix_b (size_add pos j)
                         (Binary32.of_Z (size_add (size_mul i j) 1)))
                    matrix_b;
       Some (matrix_a, matrix_b))
    (new_vector, new_vector).

(** What the host does that can be observed: element loads from the two
    result vectors during the check, and lines written to [std::cout]. *)
Inductive result_vector : Set := output_no_col | output_col.

Inductive event : Type :=
| Load (v : result_vector) (pos : size_t)
| Print (line : string).

Definition printed (trace : list event) : list string :=
  flat_map (fun e => match e with Print l => [l] | Load _ _ => [] end) trace.

Definition loaded (v : result_vector) (trace : list event) : list size_t :=
  flat_map (fun e => match e with
                     | Load output_no_col p =>
                         match v with output_no_col => [p] | _ => [] end
                     | Load output_col p =>
                         match v with output_col => [p] | _ => [] end
                     | Print _ => []
                     end) trace.

(** The right-hand side [i * j + 1] of the comparisons, converted to
    [float] by the usual arithmetic conversions. *)
Definition expected (i j : size_t) : Binary32.f32 :=
  Binary32.of_Z (size_add (size_mul i j) 1).

(** Lines 148-153: the body of the inner loop of the correctness check.
    The loop state is [(passed, trace)]. *)
Definition check_position (matrix_output_no_col matrix_output : list Binary32.f32)
           (pos i j : size_t) (st : bool * list event)
  : option (bool * list event) :=
  let '(passed, trace) := st in
  val_noCol ← vector_load matrix_output_no_col (size_add pos j);
  let trace := trace ++ [Load output_no_col (size_add pos j)] in
  val ← vector_load matrix_output (size_add pos j);
  let trace := trace ++ [Load output_col (size_add pos j)] in
  if Binary32.neq val_noCol (expected i j) || Binary32.neq val (expected i j)
  then Some (false, trace ++ [Print "FAILED: The results are incorrect"])
  else Some (passed, trace).

(** Lines 143-163: the correctness check and the exit status.  Returns
    the value returned by [main] and the trace of the check. *)
Definition correctness_check
           (matrix_output_no_col matrix_output : list Binary32.f32)
  : option (Z * list event) :=
  st ← for_loop (St := bool * list event) kNumRows
         (fun i st =>
            let pos := size_mul i kNumCols in
            for_loop kNumCols
              (fun j st =>
                 check_position matrix_output_no_col matrix_output pos i j st)
              st)
         (true, []);
  let '(passed, trace) := st : bool * list event in
  if passed
  then Some (0, trace ++ [Print "PASSED: The results are correct"])
  else Some (-1, trace ++ [Print "FAILED"]).

(** [main], on a machine where the device named [device] is available. *)
Definition main (device : string)
           (u1 u2 : Kernel.indeterminate (F := Binary32.f32))
  : option (Z * list event) :=
  '(matrix_a, matrix_b) ← init_matrices;
  let matrix_output_no_col := new_vector in
  let matrix_output := new_vector in
  let running := Print ("Running on device: " ++ device)%string in
  matrix_output_no_col ←
    Kernel.MatrixMultiply factor_1 matrix_a matrix_b matrix_output_no_col u1;
  matrix_output ←
    Kernel.MatrixMultiply factor_2 matrix_a matrix_b matrix_output u2;
  '(code, trace) ← correctness_check matrix_output_no_col matrix_output;
  Some (code, running :: running :: trace).

(** An uninitialised store in which every cell happens to hold NaN. *)
Definition nan_junk : Kernel.indeterminate (F := Binary32.f32) :=
  {| Kernel.junk_a := fun _ _ => S754_nan;
     Kernel.junk_b := fun _ _ => S754_nan;
     Kernel.junk_tmp := fun _ _ => S754_nan;
     Kernel.junk_res := fun _ => S754_nan |}.

(** The mismatch test of one position, as a predicate on the two result
    vectors (used to state what the check reports). *)
Definition mismatch (matrix_output_no_col matrix_output : list Binary32.f32)
           (p : size_t * size_t) : bool :=
  let '(i, j) := p in
  match matrix_output_no_col !! Z.to_nat (i * 4 + j),
        matrix_output !! Z.to_nat (i * 4 + j) with
  | Some val_noCol, Some val =>
      Binary32.neq val_noCol (expected i j) || Binary32.neq val (expected i j)
  | _, _ => true
  end.

(** The events of the check at one position: the two loads, then the
    failure line when the position mismatches. *)
Definition position_events
           (matrix_output_no_col matrix_output : list Binary32.f32)
           (p : size_t * size_t) : list event :=
  let '(i, j) := p in
  [Load output_no_col (i * 4 + j); Load output_col (i * 4 + j)]
  ++ (if mismatch matrix_output_no_col matrix_output p
      then [Print "FAILED: The results are incorrect"] else []).

(** The verdict of the check: no position mismatches. *)
Definition all_match (matrix_output_no_col matrix_output : list Binary32.f32)
  : bool :=
  forallb (fun p => negb (mismatch matrix_output_no_col matrix_output p))
          (unmerged_pairs 4 4).

(** [x] is the float of the integer [n], [n] is between 0 and 10, and the
    conversion in either direction is exact. *)
Definition exact_small (x : Binary32.f32) (n : Z) : Prop :=
  Binary32.to_Z x = Some n /\ Binary32.of_Z n = x /\ 0 <= n <= 10.

(** ** Further notions used to state properties of the kernel *)

(** The matrix [main] stores in [matrix_a]: 1.0 on the diagonal. *)
Definition identity4 : list Binary32.f32 :=
  map Binary32.of_Z [1; 0; 0; 0; 0; 1; 0; 0; 0; 0; 1; 0; 0; 0; 0; 1].

(** A zero or a finite number of binary32 (not an infinity, not a NaN). *)
Definition finite32 (x : Binary32.f32) : bool :=
  match x with
  | S754_zero _ => true
  | S754_finite _ m e => bounded Binary32.prec Binary32.emax m e
  | _ => false
  end.

(** The value of [0.0f + x] for such an [x]: [x], a zero losing its
    sign. *)
Definition unsigned_zero (x : Binary32.f32) : Binary32.f32 :=
  match x with
  | S754_zero _ => Binary32.zero
  | _ => x
  end.

(** An infinity or a NaN. *)
Definition inf_or_nan (x : Binary32.f32) : bool :=
  match x with
  | S754_infinity _ | S754_nan => true
  | _ => false
  end.

(** The transpose of a row-major 4x4 matrix. *)
Definition transpose4 {F : Type} (M : list F) : option (list F) :=
  mapM (fun c => M !! Z.to_nat (c mod 4 * 4 + c / 4)) (iota 16).

(** ** The host wrapper with its [try]/[catch]

    [MatrixMultiply] above is the wrapper on a machine where the device
    is found.  Here the construction of the queue may throw a synchronous
    [sycl::exception]; the [catch] block reports it on [std::cerr] and
    calls [std::terminate()]. *)

Module Host.
(** [exc.what()] and [exc.code().value()]. *)
Record sycl_exception : Type := {
  what : string;
  code_value : Z
}.

(** What [queue q(selector, ...)] does: it finds the device of that name,
    or throws. *)
Inductive backend : Type :=
| device_found (name : string)
| queue_throws (exc : sycl_exception).

(** The lines written so far to the two streams. *)
Record streams : Type := {
  cout : list string;
  cerr : list string
}.

(** A call returns a value, or the process is terminated in it. *)
Inductive completion (A : Type) : Type :=
| returned (x : A)
| terminated.
Arguments returned {A} x.
Arguments terminated {A}.

(** Lines 108-116: what the [catch] block writes to [std::cerr].
    [CL_DEVICE_NOT_FOUND] comes from the OpenCL headers. *)
Definition report (CL_DEVICE_NOT_FOUND : Z) (exc : sycl_exception)
  : list string :=
  ["Caught synchronous SYCL exception:"; what exc]%string
  ++ (if code_value exc =? CL_DEVICE_NOT_FOUND
      then ["If you are targeting an FPGA, please ensure that your system has a correctly configured FPGA board.";
            "Run sys_check in the oneAPI root directory to verify.";
            "If you are targeting the FPGA emulator, compile with -DFPGA_EMULATOR."]%string
      else []).

(** Lines 27-119: [MatrixMultiply<coalesce_factor>]. *)
Definition MatrixMultiply (CL_DEVICE_NOT_FOUND : Z) (be : backend)
           (cf : coalesce_factor)
           (matrix_a matrix_b res : list Binary32.f32)
           (u : Kernel.indeterminate (F := Binary32.f32)) (io : streams)
  : option (completion (list Binary32.f32) * streams) :=
  match be with
  | device_found name =>
      let io := {| cout := cout io ++ [("Running on device: " ++ name)%string];
                   cerr := cerr io |} in
      match Kernel.MatrixMultiply cf matrix_a matrix_b res u with
      | Some res => Some (returned res, io)
      | None => None
      end
  | queue_throws exc =>
      Some (terminated,
            {| cout := cout io;
               cerr := cerr io ++ report CL_DEVICE_NOT_FOUND exc |})
  end.

(** Lines 121-164: [main]; [be1] and [be2] are what the two calls of
    [MatrixMultiply] meet. *)
Definition main (CL_DEVICE_NOT_FOUND : Z) (be1 be2 : backend)
           (u1 u2 : Kernel.indeterminate (F := Binary32.f32))
  : option (completion Z * streams) :=
  match init_matrices with
  | None => None
  | Some (matrix_a, matrix_b) =>
      match MatrixMultiply CL_DEVICE_NOT_FOUND be1 factor_1
                           matrix_a matrix_b new_vector u1
                           {| cout := []; cerr := [] |} with
      | None => None
      | Some (terminated, io) => Some (terminated, io)
      | Some (returned matrix_output_no_col, io) =>
          match MatrixMultiply CL_DEVICE_NOT_FOUND be2 factor_2
                               matrix_a matrix_b new_vector u2 io with
          | None => None
          | Some (terminated, io) => Some (terminated, io)
          | Some (returned matrix_output, io) =>
              match correctness_check matrix_output_no_col matrix_output with
              | None => None
              | Some (code, trace) =>
                  Some (returned code,
                        {| cout := cout io ++ printed trace;
                           cerr := cerr io |})
              end
          end
      end
  end.
End Host.

(** * Properties *)

(** ** [size_t] arithmetic in range *)

Lemma size_wrap_small (x : Z) : 0 <= x < size_modulus -> size_wrap x = x.
Proof. intros Hx. unfold size_wrap. now apply Z.mod_small. Qed.

Lemma size_modulus_big : 16 < size_modulus.
Proof. reflexivity. Qed.

(** ** Counted loops as runs over index lists *)

Section LoopFacts.
Context {St : Type}.
Implicit Types (s : St).

Lemma run_over_app {X} (body : X -> St -> option St) xs ys s :
  run_over body (xs ++ ys) s = run_over body xs s ≫= run_over body ys.
Proof.
  revert s. induction xs as [|x xs IH]; intros s; simpl; [done|].
  destruct (body x s) as [s'|]; simpl; [apply IH | done].
Qed.

Lemma run_over_map {X Y} (f : X -> Y) (body : Y -> St -> option St) xs s :
  run_over body (map f xs) s = run_over (fun x => body (f x)) xs s.
Proof.
  revert s. induction xs as [|x xs IH]; intros s; simpl; [done|].
  destruct (body (f x) s); simpl; auto.
Qed.

Lemma run_over_ext {X} (f g : X -> St -> option St) xs s :
  (forall x s', In x xs -> f x s' = g x s') ->
  run_over f xs s = run_over g xs s.
Proof.
  revert s. induction xs as [|x xs IH]; intros s Hfg; simpl; [done|].
  rewrite (Hfg x s) by now left.
  destruct (g x s); simpl; [|done].
  apply IH. intros y s' Hy. apply Hfg. now right.
Qed.

Lemma run_over_flat_map {X Y} (f : X -> list Y)
      (body : Y -> St -> option St) xs s :
  run_over body (flat_map f xs) s
  = run_over (fun x => run_over body (f x)) xs s.
Proof.
  revert s. induction xs as [|x xs IH]; intros s; simpl; [done|].
  rewrite run_over_app.
  destruct (run_over body (f x) s); simpl; auto.
Qed.

(** The counter of a loop that starts at [i] and makes [n] trips takes
    the values [i], [i+1], ..., as long as it stays below 2^64. *)
Lemma for_iter_run (body : size_t -> St -> option St) n i s :
  0 <= i -> i + Z.of_nat n <= size_modulus ->
  for_iter n i body s
  = run_over body (map (fun t => i + Z.of_nat t) (seq 0 n)) s.
Proof.
  revert i s. induction n as [|n IH]; intros i s Hi Hn; [done|].
  cbn [for_iter seq map run_over].
  replace (i + Z.of_nat 0) with i by lia.
  destruct (body i s) as [s'|]; simpl; [|done].
  destruct n as [|n]; [done|].
  unfold size_add. rewrite size_wrap_small by lia.
  rewrite IH by lia.
  rewrite <- seq_shift, map_map.
  f_equal. apply map_ext. intros t. lia.
Qed.

(** The trip-count form of the loop is the test-and-increment loop, which
    terminates within [bound + 1] tests. *)
Lemma for_test_iter (body : size_t -> St -> option St) n i bound s :
  0 <= i -> i + Z.of_nat n = bound -> bound < size_modulus ->
  for_test (S n) i bound body s = Some (for_iter n i body s).
Proof.
  revert i s. induction n as [|n IH]; intros i s Hi Hn Hb.
  - cbn [for_test for_iter]. now rewrite (proj2 (Z.ltb_ge i bound)) by lia.
  - cbn [for_test for_iter] in *.
    rewrite (proj2 (Z.ltb_lt i bound)) by lia.
    destruct (body i s) as [s'|]; [|done]. cbn [mbind option_bind].
    unfold size_add. rewrite size_wrap_small by lia. apply IH; lia.
Qed.

Lemma for_loop_test (body : size_t -> St -> option St) bound s :
  0 <= bound < size_modulus ->
  for_test (S (Z.to_nat bound)) 0 bound body s = Some (for_loop bound body s).
Proof. intros Hb. apply for_test_iter; lia. Qed.

Lemma for_loop_run (body : size_t -> St -> option St) bound s :
  0 <= bound <= size_modulus ->
  for_loop bound body s = run_over body (iota (Z.to_nat bound)) s.
Proof.
  intros Hb. unfold for_loop, iota.
  rewrite for_iter_run by lia.
  f_equal.
Qed.
End LoopFacts.

Lemma iota_snoc (n : nat) : iota (S n) = iota n ++ [Z.of_nat n].
Proof. unfold iota. rewrite seq_S, map_app. reflexivity. Qed.

Lemma in_iota (n : nat) (x : Z) : In x (iota n) <-> 0 <= x < Z.of_nat n.
Proof.
  unfold iota. rewrite in_map_iff. split.
  - intros (t & <- & Ht). apply in_seq in Ht. lia.
  - intros Hx. exists (Z.to_nat x). rewrite in_seq. split; lia.
Qed.

Lemma iota_length (n : nat) : length (iota n) = n.
Proof. unfold iota. now rewrite length_map, length_seq. Qed.

Lemma iota_lookup (n c : nat) :
  (c < n)%nat -> iota n !! c = Some (Z.of_nat c).
Proof.
  intros Hc. unfold iota. rewrite list_lookup_fmap.
  rewrite lookup_seq_lt by done. reflexivity.
Qed.

Lemma iota_add (n m : nat) :
  iota (n + m) = iota n ++ map (fun t => Z.of_nat n + t) (iota m).
Proof.
  induction m as [|m IH].
  - rewrite Nat.add_0_r. simpl. now rewrite app_nil_r.
  - rewrite Nat.add_succ_r, !iota_snoc, IH, map_app, <- app_assoc.
    simpl. repeat f_equal. lia.
Qed.

(** ** Index recovery *)

Lemma delinearize_row (cols r t : Z) :
  0 <= t < cols -> delinearize cols (r * cols + t) = (r, t).
Proof.
  intros Ht. unfold delinearize. f_equal.
  - symmetry. apply Z.div_unique with t; lia.
  - symmetry. apply Z.mod_unique with r; lia.
Qed.

Lemma delinearize_inj (cols c c' : Z) :
  delinearize cols c = delinearize cols c' -> c = c'.
Proof.
  unfold delinearize. intros [= Hq Hr].
  destruct (Z.eq_dec cols 0) as [-> | Hc].
  - rewrite !Z.mod_0_r in Hr. done.
  - rewrite (Z.div_mod c cols), (Z.div_mod c' cols) by done. congruence.
Qed.

Lemma unmerged_pairs_snoc (rows cols : nat) :
  unmerged_pairs (S rows) cols
  = unmerged_pairs rows cols ++ map (pair (Z.of_nat rows)) (iota cols).
Proof.
  unfold unmerged_pairs. rewrite iota_snoc, flat_map_app. simpl.
  now rewrite app_nil_r.
Qed.

(** The merged counter, delinearised, walks the pairs of the nest in the
    order of the nest. *)
Lemma merged_unmerged (rows cols : nat) :
  merged_pairs rows cols = unmerged_pairs rows cols.
Proof.
  induction rows as [|rows IH]; [done|].
  rewrite unmerged_pairs_snoc, <- IH. unfold merged_pairs.
  replace (S rows * cols)%nat with (rows * cols + cols)%nat by lia.
  rewrite iota_add, map_app, map_map. f_equal.
  apply map_ext_in. intros t Ht%in_iota.
  rewrite Nat2Z.inj_mul. apply delinearize_row. lia.
Qed.

Lemma in_unmerged_pairs (rows cols : nat) (i j : Z) :
  In (i, j) (unmerged_pairs rows cols)
  <-> 0 <= i < Z.of_nat rows /\ 0 <= j < Z.of_nat cols.
Proof.
  unfold unmerged_pairs. rewrite in_flat_map. split.
  - intros (i' & Hi & Hij). apply in_map_iff in Hij as (j' & [= <- <-] & Hj).
    apply in_iota in Hi, Hj. done.
  - intros [Hi Hj]. exists i. split; [now apply in_iota|].
    apply in_map. now apply in_iota.
Qed.

Lemma unmerged_pairs_NoDup (rows cols : nat) :
  NoDup (unmerged_pairs rows cols).
Proof.
  rewrite <- merged_unmerged. unfold merged_pairs.
  apply (NoDup_fmap_2_strong (delinearize (Z.of_nat cols))).
  - intros c c' _ _. apply delinearize_inj.
  - unfold iota. apply (NoDup_fmap_2 Z.of_nat). apply NoDup_seq.
Qed.

Lemma unmerged_pairs_length (rows cols : nat) :
  length (unmerged_pairs rows cols) = (rows * cols)%nat.
Proof.
  rewrite <- merged_unmerged. unfold merged_pairs.
  now rewrite length_map, iota_length.
Qed.

Lemma unmerged_pairs_lookup (rows cols c : nat) :
  (c < rows * cols)%nat ->
  unmerged_pairs rows cols !! c
  = Some (delinearize (Z.of_nat cols) (Z.of_nat c)).
Proof.
  intros Hc. rewrite <- merged_unmerged. unfold merged_pairs.
  rewrite list_lookup_fmap, iota_lookup by done. reflexivity.
Qed.

(** ** The two loop schemes as runs over pair lists *)

Section SchemeFacts.
Context {St : Type}.
Implicit Types (s : St) (body : size_t -> size_t -> St -> option St).

Lemma nested_loop_run body rows cols s :
  0 <= rows <= size_modulus -> 0 <= cols <= size_modulus ->
  nested_loop rows cols body s
  = run_over (fun p => body p.1 p.2)
             (unmerged_pairs (Z.to_nat rows) (Z.to_nat cols)) s.
Proof.
  intros Hr Hc. unfold nested_loop, unmerged_pairs.
  rewrite for_loop_run by done.
  rewrite run_over_flat_map.
  apply run_over_ext. intros i s' _.
  rewrite for_loop_run by done.
  now rewrite run_over_map.
Qed.

Lemma coalesced_loop_run body rows cols s :
  0 <= rows -> 0 <= cols -> rows * cols < size_modulus ->
  coalesced_loop rows cols body s
  = run_over (fun p => body p.1 p.2)
             (merged_pairs (Z.to_nat rows) (Z.to_nat cols)) s.
Proof.
  intros Hr Hc Hrc. unfold coalesced_loop, merged_pairs, size_mul.
  rewrite size_wrap_small by nia.
  rewrite for_loop_run by nia.
  rewrite Z2Nat.inj_mul by done.
  rewrite Z2Nat.id by done.
  rewrite run_over_map.
  apply run_over_ext. intros c s' _. unfold delinearize. reflexivity.
Qed.

Lemma for_iter_idle body n i s :
  for_iter n i (fun i' => for_loop 0 (fun j => body i' j)) s = Some s.
Proof. revert i. induction n as [|n IH]; intros i; [done|]. apply IH. Qed.

(** Loop coalescing preserves the meaning of the nest, whatever the
    body and the state it starts from. *)
Lemma loop_coalesce_sound body rows cols s :
  0 <= rows -> 0 <= cols -> rows * cols < size_modulus ->
  loop_coalesce factor_2 rows cols body s
  = loop_coalesce factor_1 rows cols body s.
Proof.
  intros Hr Hc Hrc. simpl.
  destruct (Z.eq_dec cols 0) as [-> | Hc0].
  - unfold coalesced_loop, nested_loop, size_mul.
    rewrite Z.mul_0_r. unfold for_loop at 1 2. simpl.
    symmetry. apply for_iter_idle.
  - destruct (Z.eq_dec rows 0) as [-> | Hr0]; [done|].
    assert (rows < size_modulus) by nia.
    assert (cols < size_modulus) by nia.
    rewrite coalesced_loop_run by done.
    rewrite nested_loop_run by lia.
    now rewrite merged_unmerged.
Qed.

(** A property kept by every run of the body is kept by the loop,
    whatever the scheme. *)
Lemma for_iter_invariant (P : St -> Prop) (f : size_t -> St -> option St)
      n i s s' :
  (forall k t t', f k t = Some t' -> P t -> P t') ->
  P s -> for_iter n i f s = Some s' -> P s'.
Proof.
  intros Hstep. revert i s. induction n as [|n IH]; intros i s Hs Hrun.
  - now injection Hrun as <-.
  - cbn [for_iter] in Hrun. apply bind_Some in Hrun as (t & Hf & Hrest).
    eapply IH; [|exact Hrest]. eauto.
Qed.

Lemma loop_coalesce_invariant (P : St -> Prop) cf body rows cols s s' :
  (forall i j t t', body i j t = Some t' -> P t -> P t') ->
  P s -> loop_coalesce cf rows cols body s = Some s' -> P s'.
Proof.
  intros Hstep Hs. destruct cf; cbn [loop_coalesce].
  - unfold nested_loop, for_loop. apply for_iter_invariant; [|done].
    intros i t t' Hinner Ht. revert Hinner.
    apply for_iter_invariant; [|done]. intros j. apply Hstep.
  - unfold coalesced_loop, for_loop. apply for_iter_invariant; [|done].
    intros c. destruct (delinearize cols c). apply Hstep.
Qed.
End SchemeFacts.

(** ** The kernel *)

Ltac explode_list l H :=
  simpl in H;
  do 16 (destruct l as [|? l]; [discriminate H|]; simpl in H);
  destruct l; [clear H | discriminate H].

Ltac small_index i :=
  match goal with
  | H : 0 <= i < 4 |- _ =>
      assert (i = 0 \/ i = 1 \/ i = 2 \/ i = 3) as [-> | [-> | [-> | ->]]]
        by lia; clear H
  end.

Section KernelFacts.
Context {F : Type} `{FloatArith F}.
Import Kernel.
Implicit Types (s : state (F := F)) (cf : coalesce_factor).

Lemma kernel_dims : 0 <= kNumRows /\ 0 <= kNumCols /\ kNumRows * kNumCols < size_modulus.
Proof. now vm_compute. Qed.

(** Coalescing does not change what the kernel does to any state. *)
Lemma KernelCompute_factor s :
  KernelCompute factor_2 s = KernelCompute factor_1 s.
Proof.
  destruct kernel_dims as (Hr & Hc & Hrc).
  unfold KernelCompute, load_phase, multiply_phase, store_phase.
  apply option_bind_ext; [intros s1|now apply loop_coalesce_sound].
  apply option_bind_ext; [intros s2|]; now apply loop_coalesce_sound.
Qed.

(** Symbolic run of the baseline kernel on well-sized buffers. *)
Lemma KernelCompute_baseline s :
  length (accessor_matrix_a s) = 16%nat ->
  length (accessor_matrix_b s) = 16%nat ->
  length (accessor_res s) = 16%nat ->
  accessor_res <$> KernelCompute factor_1 s
  = spec_result (accessor_matrix_a s) (accessor_matrix_b s)
  /\ is_Some (KernelCompute factor_1 s).
Proof.
  destruct s as [A B R i0 a0 b0 t0]. cbn [accessor_matrix_a accessor_matrix_b accessor_res].
  intros HA HB HR.
  explode_list A HA. explode_list B HB. explode_list R HR.
  match goal with
  | |- ?run = ?spec /\ _ => assert (run = spec) as Hrun by (vm_compute; reflexivity)
  end.
  split; [exact Hrun|].
  apply (fmap_is_Some accessor_res). rewrite Hrun.
  vm_compute. eexists. reflexivity.
Qed.

(** The result of either specialisation on well-sized buffers. *)
Lemma KernelCompute_result cf s :
  length (accessor_matrix_a s) = 16%nat ->
  length (accessor_matrix_b s) = 16%nat ->
  length (accessor_res s) = 16%nat ->
  exists s', KernelCompute cf s = Some s'
             /\ spec_result (accessor_matrix_a s) (accessor_matrix_b s)
                = Some (accessor_res s').
Proof.
  intros HA HB HR.
  destruct (KernelCompute_baseline s HA HB HR) as [Hrun [s' Hs']].
  exists s'. split.
  - destruct cf; [done|]. now rewrite KernelCompute_factor.
  - rewrite <- Hrun, Hs'. reflexivity.
Qed.

(** No phase assigns through the two input accessors. *)
Lemma load_body_inputs s0 i j t t' :
  load_body i j t = Some t' -> same_inputs s0 t -> same_inputs s0 t'.
Proof.
  unfold load_body, same_inputs. intros Hrun Ht.
  repeat (apply bind_Some in Hrun as (? & _ & Hrun)).
  now injection Hrun as <-.
Qed.

Lemma multiply_body_inputs s0 i j t t' :
  multiply_body i j t = Some t' -> same_inputs s0 t -> same_inputs s0 t'.
Proof.
  unfold multiply_body, same_inputs. intros Hrun Ht.
  repeat (apply bind_Some in Hrun as (? & _ & Hrun)).
  now injection Hrun as <-.
Qed.

Lemma store_body_inputs s0 i j t t' :
  store_body i j t = Some t' -> same_inputs s0 t -> same_inputs s0 t'.
Proof.
  unfold store_body, same_inputs. intros Hrun Ht.
  repeat (apply bind_Some in Hrun as (? & _ & Hrun)).
  now injection Hrun as <-.
Qed.

Lemma KernelCompute_inputs cf s s' :
  KernelCompute cf s = Some s' -> same_inputs s s'.
Proof.
  unfold KernelCompute, load_phase, multiply_phase, store_phase.
  intros Hrun.
  apply bind_Some in Hrun as (s1 & H1 & Hrun).
  apply bind_Some in Hrun as (s2 & H2 & H3).
  eapply (loop_coalesce_invariant (same_inputs s)) in H1;
    [|apply load_body_inputs|done].
  eapply (loop_coalesce_invariant (same_inputs s)) in H2;
    [|apply multiply_body_inputs|done].
  eapply (loop_coalesce_invariant (same_inputs s)) in H3;
    [done|apply store_body_inputs|done].
Qed.
End KernelFacts.

Section KernelRefinement.
Context {F : Type} `{FloatArith F}.
Import Kernel.
Implicit Types (s : state (F := F)) (cf : coalesce_factor) (A B : list F).

Lemma spec_result_length A B out :
  spec_result A B = Some out -> length out = 16%nat.
Proof.
  unfold spec_result. intros Hout%mapM_Some_1.
  apply Forall2_length in Hout. now rewrite iota_length in Hout.
Qed.

(** Element [i*4+j] of the specified output is the specified sum. *)
Lemma spec_result_lookup A B out i j :
  spec_result A B = Some out -> 0 <= i < 4 -> 0 <= j < 4 ->
  exists v, out !! Z.to_nat (i * 4 + j) = Some v /\ spec_sum A B i j = Some v.
Proof.
  unfold spec_result. intros Hout%mapM_Some_1 Hi Hj.
  assert (iota 16 !! Z.to_nat (i * 4 + j) = Some (i * 4 + j)) as Hc.
  { rewrite iota_lookup by lia. f_equal. lia. }
  destruct (Forall2_lookup_l _ _ _ _ _ Hout Hc) as (v & Hv & Hsum).
  exists v. split; [done|].
  pose proof (delinearize_row 4 i j Hj) as [= Hq Hr].
  now rewrite Hq, Hr in Hsum.
Qed.

Lemma MatrixMultiply_result cf A B res u :
  length A = 16%nat -> length B = 16%nat -> length res = 16%nat ->
  exists out, MatrixMultiply cf A B res u = Some out
              /\ spec_result A B = Some out.
Proof.
  intros HA HB HR. unfold MatrixMultiply.
  destruct (KernelCompute_result cf (submit A B res u)) as (s' & Hrun & Hout);
    cbn [submit accessor_matrix_a accessor_matrix_b accessor_res]; try done.
  { now rewrite length_map, length_seq. }
  rewrite Hrun. exists (accessor_res s'). done.
Qed.

(** What the store phase leaves in the output buffer is the content of
    [tmp], whatever the buffer held before. *)
Lemma store_phase_writes_all cf s :
  length (accessor_res s) = 16%nat ->
  accessor_res <$> store_phase cf s = Some (row_major (tmp s)).
Proof.
  intros HR.
  assert (store_phase cf s = store_phase factor_1 s) as ->.
  { destruct cf; [done|]. destruct kernel_dims as (? & ? & ?).
    now apply loop_coalesce_sound. }
  destruct s as [A B R i0 a0 b0 t0]. cbn [accessor_res tmp] in *.
  explode_list R HR. vm_compute. reflexivity.
Qed.

Lemma store_body_tmp (x : size_t -> size_t -> F) i j t t' :
  store_body i j t = Some t' -> tmp t = x -> tmp t' = x.
Proof.
  unfold store_body. intros Hrun Ht.
  repeat (apply bind_Some in Hrun as (? & _ & Hrun)).
  now injection Hrun as <-.
Qed.

Lemma store_phase_tmp cf s s' : store_phase cf s = Some s' -> tmp s' = tmp s.
Proof.
  unfold store_phase. intros Hrun.
  eapply (loop_coalesce_invariant (fun t => tmp t = tmp s)) in Hrun;
    [done|apply store_body_tmp|done].
Qed.

(** After the load phase the local arrays hold the input matrices and
    [tmp] is cleared, whatever they held before. *)
Lemma load_phase_arrays cf s :
  length (accessor_matrix_a s) = 16%nat ->
  length (accessor_matrix_b s) = 16%nat ->
  exists s1, load_phase cf s = Some s1
             /\ row_major (a s1) = accessor_matrix_a s
             /\ row_major (b s1) = accessor_matrix_b s
             /\ row_major (tmp s1) = replicate 16 fzero.
Proof.
  intros HA HB.
  assert (load_phase cf s = load_phase factor_1 s) as ->.
  { destruct cf; [done|]. destruct kernel_dims as (? & ? & ?).
    now apply loop_coalesce_sound. }
  destruct s as [A B R i0 a0 b0 t0].
  cbn [accessor_matrix_a accessor_matrix_b] in *.
  explode_list A HA. explode_list B HB.
  match goal with
  | |- exists s1, ?run = Some s1 /\ _ = ?A /\ _ = ?B /\ _ = ?T =>
      assert ((fun t => row_major (a t)) <$> run = Some A) as Ea
        by (vm_compute; reflexivity);
      assert ((fun t => row_major (b t)) <$> run = Some B) as Eb
        by (vm_compute; reflexivity);
      assert ((fun t => row_major (tmp t)) <$> run = Some T) as Et
        by (vm_compute; reflexivity);
      destruct run as [s1|]; [|discriminate Ea]
  end.
  exists s1. repeat split; apply (inj Some); assumption.
Qed.

Lemma row_major_lookup (x : size_t -> size_t -> F) i j :
  0 <= i < 4 -> 0 <= j < 4 ->
  row_major x !! Z.to_nat (i * 4 + j) = Some (x i j).
Proof.
  intros Hi Hj. unfold row_major.
  change (Z.to_nat kNumElements) with 16%nat.
  rewrite list_lookup_fmap, iota_lookup by lia.
  rewrite Z2Nat.id by lia. cbn [fmap option_fmap option_map].
  pose proof (delinearize_row kNumCols i j Hj) as [= Hq Hr].
  unfold kNumCols in *. now rewrite Hq, Hr.
Qed.

Lemma in_bounds_true i j : 0 <= i < 4 -> 0 <= j < 4 -> in_bounds i j = true.
Proof.
  intros Hi Hj. unfold in_bounds, kNumRows, kNumCols.
  rewrite !andb_true_iff, !Z.leb_le, !Z.ltb_lt. lia.
Qed.

Lemma array_get_row_major (x : size_t -> size_t -> F) i j :
  0 <= i < 4 -> 0 <= j < 4 ->
  array_get x i j = row_major x !! Z.to_nat (i * 4 + j).
Proof.
  intros Hi Hj. rewrite row_major_lookup by done.
  unfold array_get. now rewrite in_bounds_true.
Qed.

(** The reduction loop of the multiply phase computes the partial sums
    of the contract. *)
Lemma dot_step_spec s i j k acc :
  0 <= i < 4 -> 0 <= j < 4 -> 0 <= k < 4 ->
  dot_step s i j k acc
  = (t ← spec_term (row_major (a s)) (row_major (b s)) i j k;
     Some (fadd acc t)).
Proof.
  intros Hi Hj Hk. unfold dot_step, spec_term.
  rewrite !array_get_row_major by done.
  destruct (row_major (a s) !! _); [|done].
  destruct (row_major (b s) !! _); done.
Qed.

Lemma reduction_partial_sum s i j (n : nat) :
  0 <= i < 4 -> 0 <= j < 4 -> (n <= 4)%nat ->
  for_iter n 0 (dot_step s i j) fzero
  = partial_sum (row_major (a s)) (row_major (b s)) i j n.
Proof.
  intros Hi Hj Hn. unfold partial_sum.
  pose proof size_modulus_big.
  rewrite for_iter_run by lia.
  change (map (fun t => 0 + Z.of_nat t) (seq 0 n)) with (iota n).
  apply run_over_ext. intros k acc Hk%in_iota.
  apply dot_step_spec; lia.
Qed.
End KernelRefinement.

(** ** binary32 comparisons *)

Lemma SFcompare_finite_Eq (x : spec_float) s m e :
  SFcompare x (S754_finite s m e) = Some Eq -> x = S754_finite s m e.
Proof.
  destruct x as [sx|sx| |sx mx ex]; simpl;
    try (destruct sx; discriminate); try (destruct s; discriminate);
    try discriminate.
  destruct sx, s; try discriminate;
    (destruct (ex ?= e) eqn:He; try discriminate);
    apply Z.compare_eq in He; subst ex;
    (destruct (Pos.compare_cont Eq mx m) eqn:Hm; try discriminate);
    apply Pos.compare_eq in Hm; now subst mx.
Qed.

Lemma eqb_finite (x : Binary32.f32) s m e :
  Binary32.eqb x (S754_finite s m e) = true <-> x = S754_finite s m e.
Proof.
  unfold Binary32.eqb, SFeqb. split.
  - destruct (SFcompare x _) as [[| |]|] eqn:Hc; try discriminate.
    intros _. now apply SFcompare_finite_Eq.
  - intros ->. simpl. rewrite Z.compare_refl.
    change (Pos.compare_cont Eq m m) with (Pos.compare m m).
    rewrite Pos.compare_refl. now destruct s.
Qed.

Lemma expected_finite (i j : Z) :
  0 <= i < 4 -> 0 <= j < 4 ->
  exists m e, expected i j = S754_finite false m e.
Proof. intros Hi Hj. small_index i; small_index j; vm_compute; eauto. Qed.

(** At a position of the matrix, [x != i*j+1] is false exactly when [x] is
    the float [i*j+1]. *)
Lemma neq_expected (x : Binary32.f32) (i j : Z) :
  0 <= i < 4 -> 0 <= j < 4 ->
  Binary32.neq x (expected i j) = false <-> x = expected i j.
Proof.
  intros Hi Hj. destruct (expected_finite i j Hi Hj) as (m & e & ->).
  unfold Binary32.neq. rewrite negb_false_iff. apply eqb_finite.
Qed.

Lemma position_index (i j : Z) :
  0 <= i < 4 -> 0 <= j < 4 ->
  size_add (size_mul i kNumCols) j = i * 4 + j.
Proof.
  intros Hi Hj. pose proof size_modulus_big.
  unfold size_add, size_mul, kNumCols.
  rewrite (size_wrap_small (i * 4)) by lia. apply size_wrap_small. lia.
Qed.

(** ** The correctness check *)

Section Check.
Variables matrix_output_no_col matrix_output : list Binary32.f32.
Hypothesis size_no_col : length matrix_output_no_col = 16%nat.
Hypothesis size_col : length matrix_output = 16%nat.

Lemma check_position_step i j passed trace :
  0 <= i < 4 -> 0 <= j < 4 ->
  check_position matrix_output_no_col matrix_output
                 (size_mul i kNumCols) i j (passed, trace)
  = Some (passed && negb (mismatch matrix_output_no_col matrix_output (i, j)),
          trace ++ position_events matrix_output_no_col matrix_output (i, j)).
Proof using size_no_col size_col.
  intros Hi Hj. unfold check_position, position_events, mismatch, vector_load.
  rewrite position_index by done.
  destruct (lookup_lt_is_Some_2 matrix_output_no_col (Z.to_nat (i * 4 + j)))
    as [x Hx]; [lia|].
  destruct (lookup_lt_is_Some_2 matrix_output (Z.to_nat (i * 4 + j)))
    as [y Hy]; [lia|].
  rewrite Hx, Hy. cbn [mbind option_bind].
  destruct (_ || _); cbn [negb].
  - rewrite andb_false_r, <- !app_assoc. reflexivity.
  - rewrite andb_true_r, app_nil_r, <- !app_assoc. reflexivity.
Qed.

Lemma check_positions_run ps passed trace :
  Forall (fun p => 0 <= p.1 < 4 /\ 0 <= p.2 < 4) ps ->
  run_over (fun p => check_position matrix_output_no_col matrix_output
                       (size_mul p.1 kNumCols) p.1 p.2)
           ps (passed, trace)
  = Some (passed
          && forallb (fun p => negb (mismatch matrix_output_no_col
                                       matrix_output p)) ps,
          trace ++ flat_map (position_events matrix_output_no_col
                               matrix_output) ps).
Proof using size_no_col size_col.
  intros Hps. revert passed trace.
  induction Hps as [|[i j] ps [Hi Hj] _ IH]; intros passed trace.
  - simpl. now rewrite andb_true_r, app_nil_r.
  - cbn [run_over fst snd]. rewrite check_position_step by done.
    cbn [mbind option_bind]. rewrite IH.
    cbn [forallb flat_map]. now rewrite andb_assoc, app_assoc.
Qed.

Lemma correctness_check_run :
  let ok := all_match matrix_output_no_col matrix_output in
  correctness_check matrix_output_no_col matrix_output
  = Some (if ok then 0 else -1,
          flat_map (position_events matrix_output_no_col matrix_output)
                   (unmerged_pairs 4 4)
          ++ [Print (if ok
                     then "PASSED: The results are correct"
                     else "FAILED")]).
Proof using size_no_col size_col.
  intros ok. unfold correctness_check.
  change (for_loop kNumRows _ (true, []))
    with (nested_loop kNumRows kNumCols
            (fun i j => check_position matrix_output_no_col matrix_output
                          (size_mul i kNumCols) i j) (true, [])).
  rewrite nested_loop_run by (split; discriminate).
  change (Z.to_nat kNumRows) with 4%nat. change (Z.to_nat kNumCols) with 4%nat.
  rewrite check_positions_run.
  - cbn [mbind option_bind andb app]. fold (all_match matrix_output_no_col matrix_output).
    fold ok. destruct ok; reflexivity.
  - apply Forall_forall. intros [i j] Hp%list_elem_of_In%in_unmerged_pairs. simpl. lia.
Qed.
End Check.

(** ** What the trace of the check contains *)

Section Trace.
Variables o1 o2 : list Binary32.f32.

Lemma printed_app t1 t2 : printed (t1 ++ t2) = printed t1 ++ printed t2.
Proof. apply flat_map_app. Qed.

Lemma loaded_app v t1 t2 : loaded v (t1 ++ t2) = loaded v t1 ++ loaded v t2.
Proof. apply flat_map_app. Qed.

Lemma loaded_positions v ps :
  loaded v (flat_map (position_events o1 o2) ps)
  = map (fun p => p.1 * 4 + p.2) ps.
Proof.
  induction ps as [|[i j] ps IH]; [done|].
  cbn [flat_map map]. rewrite loaded_app, IH. unfold position_events.
  destruct (mismatch o1 o2 (i, j)), v; reflexivity.
Qed.

Lemma printed_positions ps :
  printed (flat_map (position_events o1 o2) ps)
  = map (fun _ => "FAILED: The results are incorrect"%string)
        (List.filter (mismatch o1 o2) ps).
Proof.
  induction ps as [|[i j] ps IH]; [done|].
  cbn [flat_map List.filter]. rewrite printed_app, IH. unfold position_events.
  destruct (mismatch o1 o2 (i, j)); reflexivity.
Qed.

Lemma no_mismatch_filter ps :
  forallb (fun p => negb (mismatch o1 o2 p)) ps = true ->
  List.filter (mismatch o1 o2) ps = [].
Proof.
  induction ps as [|p ps IH]; [done|]. cbn [forallb List.filter].
  intros [Hp Hps]%andb_true_iff. apply negb_true_iff in Hp.
  rewrite Hp. auto.
Qed.

Lemma mismatch_false i j :
  0 <= i < 4 -> 0 <= j < 4 ->
  mismatch o1 o2 (i, j) = false
  <-> o1 !! Z.to_nat (i * 4 + j) = Some (expected i j)
      /\ o2 !! Z.to_nat (i * 4 + j) = Some (expected i j).
Proof.
  intros Hi Hj. unfold mismatch.
  destruct (o1 !! _) as [x|]; [|split; [discriminate|intros [? _]; discriminate]].
  destruct (o2 !! _) as [y|]; [|split; [discriminate|intros [_ ?]; discriminate]].
  rewrite orb_false_iff, !neq_expected by done.
  split; intros [Hx Hy]; split; congruence.
Qed.

Lemma all_match_true :
  all_match o1 o2 = true
  <-> forall i j, 0 <= i < 4 -> 0 <= j < 4 ->
        o1 !! Z.to_nat (i * 4 + j) = Some (expected i j)
        /\ o2 !! Z.to_nat (i * 4 + j) = Some (expected i j).
Proof.
  unfold all_match. rewrite forallb_forall. split.
  - intros Hall i j Hi Hj. apply mismatch_false; [done..|].
    apply negb_true_iff, Hall, in_unmerged_pairs. lia.
  - intros Hall [i j] Hp%in_unmerged_pairs.
    apply negb_true_iff, mismatch_false; [lia..|]. apply Hall; lia.
Qed.
End Trace.

(** ** Frame of the first two phases *)

Section KernelFrame.
Context {F : Type} `{FloatArith F}.
Import Kernel.
Implicit Types (s : state (F := F)) (cf : coalesce_factor).

Lemma load_body_res (r : list F) i j t t' :
  load_body i j t = Some t' -> accessor_res t = r -> accessor_res t' = r.
Proof.
  unfold load_body. intros Hrun Ht.
  repeat (apply bind_Some in Hrun as (? & _ & Hrun)).
  now injection Hrun as <-.
Qed.

Lemma multiply_body_res (r : list F) i j t t' :
  multiply_body i j t = Some t' -> accessor_res t = r -> accessor_res t' = r.
Proof.
  unfold multiply_body. intros Hrun Ht.
  repeat (apply bind_Some in Hrun as (? & _ & Hrun)).
  now injection Hrun as <-.
Qed.

Lemma load_phase_res cf s s' :
  load_phase cf s = Some s' -> accessor_res s' = accessor_res s.
Proof.
  unfold load_phase. intros Hrun.
  eapply (loop_coalesce_invariant (fun t => accessor_res t = accessor_res s))
    in Hrun; [done|apply load_body_res|done].
Qed.

Lemma multiply_phase_res cf s s' :
  multiply_phase cf s = Some s' -> accessor_res s' = accessor_res s.
Proof.
  unfold multiply_phase. intros Hrun.
  eapply (loop_coalesce_invariant (fun t => accessor_res t = accessor_res s))
    in Hrun; [done|apply multiply_body_res|done].
Qed.

(** The output buffer after the kernel is the content of [tmp]. *)
Lemma KernelCompute_output_is_tmp cf s s' :
  length (accessor_res s) = 16%nat ->
  KernelCompute cf s = Some s' ->
  accessor_res s' = row_major (tmp s').
Proof.
  intros HR Hrun. unfold KernelCompute in Hrun.
  apply bind_Some in Hrun as (s1 & H1 & Hrun).
  apply bind_Some in Hrun as (s2 & H2 & H3).
  apply load_phase_res in H1. apply multiply_phase_res in H2.
  pose proof (store_phase_writes_all cf s2) as Hw.
  rewrite H3 in Hw. rewrite (store_phase_tmp cf s2 s' H3).
  apply (inj Some), Hw. congruence.
Qed.
End KernelFrame.

(** * The claims *)

Lemma run_over_collect (ps acc : list (size_t * size_t)) :
  run_over (fun p visited => Some (visited ++ [(p.1, p.2)])) ps acc
  = Some (acc ++ ps).
Proof.
  revert acc. induction ps as [|[i j] ps IH]; intros acc; simpl.
  - now rewrite app_nil_r.
  - rewrite IH, <- app_assoc. reflexivity.
Qed.

Lemma visit_order_nested :
  visit_order (loop_coalesce factor_1 kNumRows kNumCols)
  = Some (unmerged_pairs 4 4).
Proof.
  unfold visit_order. cbn [loop_coalesce].
  rewrite nested_loop_run by (split; discriminate).
  apply run_over_collect.
Qed.

(** C4. Index recovery and iteration coverage: the merged loop over the
    linear range [0,16), recovering (c/4, c%4), hands its body the same
    sequence of pairs as the unmerged nest; that sequence has 16 entries
    without repetition, contains exactly the pairs of [0,4)x[0,4), and its
    c-th entry is (c/4, c%4), i.e. row-major order. *)
Theorem index_recovery_row_major :
  exists visited,
    visit_order (loop_coalesce factor_1 kNumRows kNumCols) = Some visited
    /\ visit_order (loop_coalesce factor_2 kNumRows kNumCols) = Some visited
    /\ map (delinearize 4) (iota 16) = visited
    /\ length visited = 16%nat
    /\ NoDup visited
    /\ (forall i j, In (i, j) visited <-> 0 <= i < 4 /\ 0 <= j < 4)
    /\ (forall c, 0 <= c < 16 ->
                  visited !! Z.to_nat c = Some (c / 4, c mod 4)).
Proof.
  exists (unmerged_pairs 4 4). split; [apply visit_order_nested|].
  split.
  { unfold visit_order. rewrite loop_coalesce_sound by (vm_compute; congruence).
    apply visit_order_nested. }
  split; [apply (merged_unmerged 4 4)|].
  split; [apply unmerged_pairs_length|].
  split; [apply unmerged_pairs_NoDup|].
  split; [intros i j; apply in_unmerged_pairs|].
  intros c Hc. rewrite unmerged_pairs_lookup by lia.
  unfold delinearize. rewrite Z2Nat.id by lia. reflexivity.
Qed.

(** C2. Functional equivalence under coalescing: on any two 16-element
    input matrices, the factor-2 kernel and the factor-1 kernel both
    complete and leave the same 16 values in their output vectors,
    whatever the output vectors and the uninitialised storage of the two
    runs held before. *)
Theorem coalescing_preserves_result
        (A B res1 res2 : list Binary32.f32)
        (u1 u2 : Kernel.indeterminate (F := Binary32.f32)) :
  length A = 16%nat -> length B = 16%nat ->
  length res1 = 16%nat -> length res2 = 16%nat ->
  exists out,
    Kernel.MatrixMultiply factor_2 A B res2 u2 = Some out
    /\ Kernel.MatrixMultiply factor_1 A B res1 u1 = Some out
    /\ length out = 16%nat.
Proof.
  intros HA HB H1 H2.
  destruct (MatrixMultiply_result factor_2 A B res2 u2 HA HB H2)
    as (out2 & Hrun2 & Hspec2).
  destruct (MatrixMultiply_result factor_1 A B res1 u1 HA HB H1)
    as (out1 & Hrun1 & Hspec1).
  exists out2. split; [done|]. split.
  - rewrite Hrun1. congruence.
  - eapply spec_result_length, Hspec2.
Qed.

Lemma coalescing_preserves_result_witness :
  exists out,
    Kernel.MatrixMultiply factor_2 (replicate 16 (Binary32.of_Z 3))
      (replicate 16 (Binary32.of_Z 5)) new_vector nan_junk = Some out
    /\ Kernel.MatrixMultiply factor_1 (replicate 16 (Binary32.of_Z 3))
         (replicate 16 (Binary32.of_Z 5)) new_vector nan_junk = Some out
    /\ length out = 16%nat.
Proof.
  apply (coalescing_preserves_result
           (replicate 16 (Binary32.of_Z 3)) (replicate 16 (Binary32.of_Z 5))
           new_vector new_vector nan_junk nan_junk); reflexivity.
Defined.

(** C3. Kernel contract: for 16-element inputs and either coalescing
    factor, the kernel completes and element [i*4+j] of the output is the
    sum over m in [0,4) of A[i*4+m] * B[m*4+j] (accumulated in float from
    0, m increasing), for all (i,j) in [0,4)x[0,4). *)
Theorem kernel_computes_product
        (cf : coalesce_factor) (A B res : list Binary32.f32)
        (u : Kernel.indeterminate (F := Binary32.f32)) (i j : Z) :
  length A = 16%nat -> length B = 16%nat -> length res = 16%nat ->
  0 <= i < 4 -> 0 <= j < 4 ->
  exists out v,
    Kernel.MatrixMultiply cf A B res u = Some out
    /\ out !! Z.to_nat (i * 4 + j) = Some v
    /\ spec_sum A B i j = Some v.
Proof.
  intros HA HB HR Hi Hj.
  destruct (MatrixMultiply_result cf A B res u HA HB HR) as (out & Hrun & Hspec).
  destruct (spec_result_lookup A B out i j Hspec Hi Hj) as (v & Hv & Hsum).
  exists out, v. done.
Qed.

Lemma kernel_computes_product_witness :
  exists out v,
    Kernel.MatrixMultiply factor_2 (replicate 16 (Binary32.of_Z 3))
      (replicate 16 (Binary32.of_Z 5)) new_vector nan_junk = Some out
    /\ out !! Z.to_nat (2 * 4 + 3) = Some v
    /\ spec_sum (replicate 16 (Binary32.of_Z 3))
                (replicate 16 (Binary32.of_Z 5)) 2 3 = Some v.
Proof.
  apply (kernel_computes_product factor_2
           (replicate 16 (Binary32.of_Z 3)) (replicate 16 (Binary32.of_Z 5))
           new_vector nan_junk 2 3); (reflexivity || lia).
Defined.

(** C8. Buffer access discipline: a kernel execution on well-sized
    buffers completes; the two input buffers hold afterwards what they
    held before; the output buffer holds the 16 cells of [tmp] written by
    the store phase, and the same 16 values result whatever the output
    buffer held before the execution. *)
Theorem buffer_access_discipline
        (cf : coalesce_factor) (s : Kernel.state (F := Binary32.f32)) :
  length (Kernel.accessor_matrix_a s) = 16%nat ->
  length (Kernel.accessor_matrix_b s) = 16%nat ->
  length (Kernel.accessor_res s) = 16%nat ->
  exists s',
    Kernel.KernelCompute cf s = Some s'
    /\ Kernel.accessor_matrix_a s' = Kernel.accessor_matrix_a s
    /\ Kernel.accessor_matrix_b s' = Kernel.accessor_matrix_b s
    /\ length (Kernel.accessor_res s') = 16%nat
    /\ Kernel.accessor_res s' = Kernel.row_major (Kernel.tmp s')
    /\ (forall stale, length stale = 16%nat ->
          Kernel.accessor_res <$> Kernel.KernelCompute cf (Kernel.set_res s stale)
          = Some (Kernel.accessor_res s')).
Proof.
  intros HA HB HR.
  destruct (KernelCompute_result cf s HA HB HR) as (s' & Hrun & Hspec).
  destruct (KernelCompute_inputs cf s s' Hrun) as [Ha Hb].
  exists s'. repeat split; try done.
  - eapply spec_result_length, Hspec.
  - now apply (KernelCompute_output_is_tmp cf s).
  - intros stale Hstale.
    destruct (KernelCompute_result cf (Kernel.set_res s stale)) as (t & Ht & Hspec');
      try done.
    rewrite Ht. cbn [fmap option_fmap option_map]. f_equal.
    apply (inj Some). rewrite <- Hspec, <- Hspec'. reflexivity.
Qed.

Lemma buffer_access_discipline_witness :
  exists s',
    Kernel.KernelCompute factor_2
      (Kernel.submit (replicate 16 (Binary32.of_Z 3))
                     (replicate 16 (Binary32.of_Z 5)) new_vector nan_junk)
    = Some s'
    /\ Kernel.accessor_matrix_a s' = replicate 16 (Binary32.of_Z 3)
    /\ Kernel.accessor_matrix_b s' = replicate 16 (Binary32.of_Z 5)
    /\ length (Kernel.accessor_res s') = 16%nat.
Proof.
  destruct (buffer_access_discipline factor_2
              (Kernel.submit (replicate 16 (Binary32.of_Z 3))
                 (replicate 16 (Binary32.of_Z 5)) new_vector nan_junk))
    as (s' & Hrun & Ha & Hb & Hlen & _); [reflexivity..|].
  exists s'. repeat split; assumption.
Defined.

(** C9. Determinism: for either factor and 16-element inputs there is one
    output that every execution produces, from whatever state of [idx],
    [a], [b], [tmp] and of the output buffer it starts, and whatever the
    output vector passed to [MatrixMultiply] held. *)
Theorem kernel_deterministic
        (cf : coalesce_factor) (A B : list Binary32.f32) :
  length A = 16%nat -> length B = 16%nat ->
  exists out,
    (forall s : Kernel.state (F := Binary32.f32),
        Kernel.accessor_matrix_a s = A -> Kernel.accessor_matrix_b s = B ->
        length (Kernel.accessor_res s) = 16%nat ->
        Kernel.accessor_res <$> Kernel.KernelCompute cf s = Some out)
    /\ (forall res u, length res = 16%nat ->
           Kernel.MatrixMultiply cf A B res u = Some out).
Proof.
  intros HA HB.
  destruct (MatrixMultiply_result cf A B new_vector nan_junk HA HB eq_refl)
    as (out & _ & Hspec).
  exists out. split.
  - intros s <- <- HR.
    destruct (KernelCompute_result cf s HA HB HR) as (s' & -> & Hspec').
    cbn [fmap option_fmap option_map]. congruence.
  - intros res u HR.
    destruct (MatrixMultiply_result cf A B res u HA HB HR) as (out' & -> & Hspec').
    congruence.
Qed.

Lemma kernel_deterministic_witness :
  exists out,
    Kernel.MatrixMultiply factor_1 (replicate 16 (Binary32.of_Z 3))
      (replicate 16 (Binary32.of_Z 5)) new_vector nan_junk = Some out
    /\ Kernel.MatrixMultiply factor_1 (replicate 16 (Binary32.of_Z 3))
         (replicate 16 (Binary32.of_Z 5)) (replicate 16 (Binary32.of_Z 7))
         nan_junk = Some out.
Proof.
  destruct (kernel_deterministic factor_1 (replicate 16 (Binary32.of_Z 3))
              (replicate 16 (Binary32.of_Z 5)) eq_refl eq_refl)
    as (out & _ & Hmm).
  exists out. split; apply Hmm; reflexivity.
Defined.

(** The two matrices [main] builds. *)
Lemma init_matrices_value :
  init_matrices
  = Some (map Binary32.of_Z [1; 0; 0; 0; 0; 1; 0; 0; 0; 0; 1; 0; 0; 0; 0; 1],
          map Binary32.of_Z [1; 1; 1; 1; 1; 2; 3; 4; 1; 3; 5; 7; 1; 4; 7; 10]).
Proof. vm_compute. reflexivity. Qed.

(** C5. Initialisation: [main] builds matrix_a with 1.0 at [i*4+j] when
    i = j and 0.0 otherwise, and matrix_b with the float i*j+1 at
    [i*4+j], for all (i,j) in [0,4)x[0,4); these floats denote exactly the
    integers 1, 0 and i*j+1. *)
Theorem init_matrices_identity_and_pattern :
  exists matrix_a matrix_b,
    init_matrices = Some (matrix_a, matrix_b)
    /\ length matrix_a = 16%nat /\ length matrix_b = 16%nat
    /\ forall i j, 0 <= i < 4 -> 0 <= j < 4 ->
         matrix_a !! Z.to_nat (i * 4 + j)
         = Some (if i =? j then Binary32.of_Z 1 else Binary32.zero)
         /\ matrix_b !! Z.to_nat (i * 4 + j) = Some (Binary32.of_Z (i * j + 1))
         /\ Binary32.to_Z (Binary32.of_Z 1) = Some 1
         /\ Binary32.to_Z Binary32.zero = Some 0
         /\ Binary32.to_Z (Binary32.of_Z (i * j + 1)) = Some (i * j + 1).
Proof.
  eexists _, _. split; [apply init_matrices_value|].
  split; [reflexivity|]. split; [reflexivity|].
  intros i j Hi Hj. small_index i; small_index j; vm_compute; done.
Qed.

(** C1. Correctness against the closed form: on the matrices built by
    [main], the kernel with factor 1 and with factor 2 completes, and
    every element [i*4+j] of its result compares equal ([==] on float) to
    i*j+1, for all (i,j) in [0,4)x[0,4), whatever the uninitialised
    storage held. *)
Theorem closed_form_result :
  exists matrix_a matrix_b,
    init_matrices = Some (matrix_a, matrix_b)
    /\ forall cf u, exists out,
         Kernel.MatrixMultiply cf matrix_a matrix_b new_vector u = Some out
         /\ forall i j, 0 <= i < 4 -> 0 <= j < 4 ->
              exists v, out !! Z.to_nat (i * 4 + j) = Some v
                        /\ Binary32.eqb v (expected i j) = true
                        /\ v = Binary32.of_Z (i * j + 1).
Proof.
  eexists _, _. split; [apply init_matrices_value|].
  intros cf u.
  edestruct (MatrixMultiply_result cf) as (out & Hrun & Hspec);
    [| | |exists out; split; [exact Hrun|]]; try reflexivity.
  vm_compute in Hspec. apply (inj Some) in Hspec. subst out.
  intros i j Hi Hj. small_index i; small_index j;
    eexists; (split; [reflexivity|]); split; vm_compute; reflexivity.
Qed.

(** C6. Exit status: for any two 16-element result vectors the check
    completes; the value returned by [main] is 0 exactly when every
    element of both vectors is the float i*j+1, and then the only line
    printed by the check is the PASSED line; otherwise it is -1 and the
    last line printed is FAILED. *)
Theorem exit_code_reflects_check
        (matrix_output_no_col matrix_output : list Binary32.f32) :
  length matrix_output_no_col = 16%nat -> length matrix_output = 16%nat ->
  exists code trace,
    correctness_check matrix_output_no_col matrix_output = Some (code, trace)
    /\ (code = 0 <->
        forall i j, 0 <= i < 4 -> 0 <= j < 4 ->
          matrix_output_no_col !! Z.to_nat (i * 4 + j) = Some (expected i j)
          /\ matrix_output !! Z.to_nat (i * 4 + j) = Some (expected i j))
    /\ (code = 0 -> printed trace = ["PASSED: The results are correct"%string])
    /\ (code <> 0 -> code = -1 /\ last (printed trace) = Some "FAILED"%string).
Proof.
  intros H1 H2.
  rewrite (correctness_check_run _ _ H1 H2). cbv zeta.
  pose proof (all_match_true matrix_output_no_col matrix_output) as Hall.
  eexists _, _. split; [reflexivity|].
  destruct (all_match matrix_output_no_col matrix_output) eqn:Hok.
  - split; [split; [intros _; now apply Hall | done]|].
    split; [|done]. intros _.
    rewrite printed_app, printed_positions, no_mismatch_filter by exact Hok.
    reflexivity.
  - split; [split; [discriminate|]|].
    { intros Hm. apply Hall in Hm. discriminate. }
    split; [discriminate|]. intros _. split; [done|].
    rewrite printed_app. apply last_snoc.
Qed.

Lemma exit_code_reflects_check_witness :
  exists code trace,
    correctness_check (map Binary32.of_Z [1; 1; 1; 1; 1; 2; 3; 4; 1; 3; 5; 7; 1; 4; 7; 10])
                      (replicate 16 (Binary32.of_Z 1))
    = Some (code, trace)
    /\ (code <> 0 -> code = -1 /\ last (printed trace) = Some "FAILED"%string).
Proof.
  destruct (exit_code_reflects_check
              (map Binary32.of_Z [1; 1; 1; 1; 1; 2; 3; 4; 1; 3; 5; 7; 1; 4; 7; 10])
              (replicate 16 (Binary32.of_Z 1)) eq_refl eq_refl)
    as (code & trace & Hrun & _ & _ & Hfail).
  exists code, trace. split; assumption.
Defined.

(** C7. No early abort: for any two 16-element result vectors, mismatching
    or not, the check loads position 0, 1, ..., 15 of both vectors, prints
    one failure line per mismatching position, and only then reports the
    verdict, as the last event. *)
Theorem check_covers_all_positions
        (matrix_output_no_col matrix_output : list Binary32.f32) :
  length matrix_output_no_col = 16%nat -> length matrix_output = 16%nat ->
  exists code checks verdict,
    correctness_check matrix_output_no_col matrix_output
    = Some (code, checks ++ [Print verdict])
    /\ loaded output_no_col checks = iota 16
    /\ loaded output_col checks = iota 16
    /\ printed checks
       = repeat "FAILED: The results are incorrect"%string
                (length (List.filter (mismatch matrix_output_no_col matrix_output)
                                     (unmerged_pairs 4 4)))
    /\ (verdict = "PASSED: The results are correct"%string
        \/ verdict = "FAILED"%string).
Proof.
  intros H1 H2.
  rewrite (correctness_check_run _ _ H1 H2). cbv zeta.
  eexists _, _, _. split; [reflexivity|].
  rewrite !loaded_positions, printed_positions.
  split; [reflexivity|]. split; [reflexivity|]. split.
  - generalize (List.filter (mismatch matrix_output_no_col matrix_output)
                            (unmerged_pairs 4 4)).
    intros l. induction l as [|p l IH]; [done|]. simpl. now rewrite IH.
  - destruct (all_match _ _); auto.
Qed.

Lemma check_covers_all_positions_witness :
  exists code checks verdict,
    correctness_check (replicate 16 (Binary32.of_Z 1)) (replicate 16 S754_nan)
    = Some (code, checks ++ [Print verdict])
    /\ loaded output_no_col checks = iota 16
    /\ loaded output_col checks = iota 16.
Proof.
  destruct (check_covers_all_positions
              (replicate 16 (Binary32.of_Z 1)) (replicate 16 S754_nan)
              eq_refl eq_refl)
    as (code & checks & verdict & Hrun & Hl1 & Hl2 & _).
  exists code, checks, verdict. repeat split; assumption.
Defined.

(** ** Exactness of the values of the run *)

Ltac solve_exact_small :=
  eexists; unfold exact_small;
  split; [vm_compute; reflexivity|];
  split; [vm_compute; reflexivity|]; lia.

(** On integers between 0 and 10, the float comparison agrees with the
    integer comparison. *)
Lemma neq_exact_small (x y : Binary32.f32) (n m : Z) :
  exact_small x n -> exact_small y m ->
  Binary32.neq x y = negb (n =? m).
Proof.
  intros (_ & <- & Hn) (_ & <- & Hm).
  assert (forallb (fun n' =>
            forallb (fun m' =>
              Bool.eqb (Binary32.neq (Binary32.of_Z n') (Binary32.of_Z m'))
                       (negb (n' =? m')))
              (iota 11)) (iota 11) = true) as Hall
    by (vm_compute; reflexivity).
  rewrite forallb_forall in Hall.
  assert (In n (iota 11)) as Hn' by (apply in_iota; lia).
  assert (In m (iota 11)) as Hm' by (apply in_iota; lia).
  specialize (Hall n Hn'). rewrite forallb_forall in Hall.
  now apply Bool.eqb_prop, Hall.
Qed.

(** C10. Exactness of the final comparison: in the run of [main], the
    inputs, the products [a[i][k] * b[k][j]], the partial sums of the
    reduction loop, the results and the expected values i*j+1 are all
    floats of integers between 0 and 10, converted without rounding in
    either direction, and each comparison [val != i*j+1] of the check
    has the outcome of the comparison of those integers. *)
Theorem check_values_exact :
  exists matrix_a matrix_b,
    init_matrices = Some (matrix_a, matrix_b)
    /\ (forall x, In x matrix_a \/ In x matrix_b -> exists n, exact_small x n)
    /\ (forall i j, 0 <= i < 4 -> 0 <= j < 4 ->
          exact_small (expected i j) (i * j + 1))
    /\ forall cf u, exists s1 out,
         Kernel.load_phase cf (Kernel.submit matrix_a matrix_b new_vector u)
         = Some s1
         /\ Kernel.MatrixMultiply cf matrix_a matrix_b new_vector u = Some out
         /\ forall i j, 0 <= i < 4 -> 0 <= j < 4 ->
              (forall k, 0 <= k < 4 ->
                 exists x y p,
                   Kernel.array_get (Kernel.a s1) i k = Some x
                   /\ Kernel.array_get (Kernel.b s1) k j = Some y
                   /\ exact_small (Binary32.mul x y) p)
              /\ (forall n, (n <= 4)%nat ->
                    exists sum m,
                      for_iter n 0 (Kernel.dot_step s1 i j) Binary32.zero
                      = Some sum
                      /\ exact_small sum m)
              /\ exists val m,
                   out !! Z.to_nat (i * 4 + j) = Some val
                   /\ exact_small val m
                   /\ Binary32.neq val (expected i j)
                      = negb (m =? i * j + 1).
Proof.
  pose (A := map Binary32.of_Z [1; 0; 0; 0; 0; 1; 0; 0; 0; 0; 1; 0; 0; 0; 0; 1]).
  pose (B := map Binary32.of_Z [1; 1; 1; 1; 1; 2; 3; 4; 1; 3; 5; 7; 1; 4; 7; 10]).
  exists A, B. split; [apply init_matrices_value|].
  split.
  { intros x Hx. rewrite <- in_app_iff in Hx. revert x Hx.
    apply List.Forall_forall. vm_compute app.
    repeat (constructor; [solve_exact_small|]). constructor. }
  assert (forall i j, 0 <= i < 4 -> 0 <= j < 4 ->
            exact_small (expected i j) (i * j + 1)) as Hexp.
  { intros i j Hi Hj. unfold exact_small.
    small_index i; small_index j; repeat split; vm_compute; congruence. }
  split; [exact Hexp|].
  intros cf u.
  destruct (load_phase_arrays cf (Kernel.submit A B new_vector u)
                              eq_refl eq_refl)
    as (s1 & Hload & Ha & Hb & _).
  destruct (MatrixMultiply_result cf A B new_vector u eq_refl eq_refl eq_refl)
    as (out & Hrun & Hspec).
  exists s1, out. split; [exact Hload|]. split; [exact Hrun|].
  cbn [Kernel.submit Kernel.accessor_matrix_a Kernel.accessor_matrix_b] in Ha, Hb.
  vm_compute in Hspec. apply (inj Some) in Hspec. subst out.
  intros i j Hi Hj. split; [|split].
  - intros k Hk. rewrite !array_get_row_major, Ha, Hb by done.
    small_index i; small_index j; small_index k;
      eexists _, _, _; (split; [reflexivity|]); (split; [reflexivity|]);
      unfold exact_small; (split; [vm_compute; reflexivity|]);
      (split; [vm_compute; reflexivity|]); lia.
  - intros n Hn. change Binary32.zero with (fzero (F := Binary32.f32)).
    rewrite reduction_partial_sum, Ha, Hb by done.
    do 5 (destruct n as [|n]; [small_index i; small_index j;
                               eexists _, _; (split; [vm_compute; reflexivity|]);
                               unfold exact_small;
                               (split; [vm_compute; reflexivity|]);
                               (split; [vm_compute; reflexivity|]); lia|]).
    lia.
  - assert (exists val m,
              map Binary32.of_Z [1; 1; 1; 1; 1; 2; 3; 4; 1; 3; 5; 7; 1; 4; 7; 10]
                !! Z.to_nat (i * 4 + j) = Some val
              /\ exact_small val m) as (val & m & Hval & Hm).
    { small_index i; small_index j; eexists _, _;
        (split; [reflexivity|]); unfold exact_small;
        (split; [vm_compute; reflexivity|]);
        (split; [vm_compute; reflexivity|]); lia. }
    exists val, m. split; [exact Hval|]. split; [exact Hm|].
    apply neq_exact_small; auto.
Qed.

(** The result of either kernel on the matrices of [main]. *)
Lemma main_kernel_result (cf : coalesce_factor)
      (u : Kernel.indeterminate (F := Binary32.f32)) :
  Kernel.MatrixMultiply cf
    (map Binary32.of_Z [1; 0; 0; 0; 0; 1; 0; 0; 0; 0; 1; 0; 0; 0; 0; 1])
    (map Binary32.of_Z [1; 1; 1; 1; 1; 2; 3; 4; 1; 3; 5; 7; 1; 4; 7; 10])
    new_vector u
  = Some (map Binary32.of_Z [1; 1; 1; 1; 1; 2; 3; 4; 1; 3; 5; 7; 1; 4; 7; 10]).
Proof.
  destruct (MatrixMultiply_result cf
              (map Binary32.of_Z [1; 0; 0; 0; 0; 1; 0; 0; 0; 0; 1; 0; 0; 0; 0; 1])
              (map Binary32.of_Z [1; 1; 1; 1; 1; 2; 3; 4; 1; 3; 5; 7; 1; 4; 7; 10])
              new_vector u eq_refl eq_refl eq_refl) as (out & -> & Hspec).
  rewrite <- Hspec. vm_compute. reflexivity.
Qed.

Lemma bind_Some_l {A B} (x : A) (f : A -> option B) : Some x ≫= f = f x.
Proof. reflexivity. Qed.


(** * Further properties *)

(** ** Bounds of the kernel's buffer accesses *)

Ltac explode_prefix l H :=
  simpl in H;
  do 16 (destruct l as [|? l]; [simpl in H; lia|]; simpl in H);
  clear H.

Section KernelBounds.
Context {F : Type} `{FloatArith F}.
Import Kernel.
Implicit Types (s t : state (F := F)) (cf : coalesce_factor).

Lemma phase_as_run (body : size_t -> size_t -> state -> option state) cf s :
  loop_coalesce cf kNumRows kNumCols body s
  = run_over (fun p => body p.1 p.2) (unmerged_pairs 4 4) s.
Proof.
  destruct kernel_dims as (Hr & Hc & Hrc).
  destruct cf; [|rewrite loop_coalesce_sound by done];
    apply nested_loop_run; split; discriminate.
Qed.

Lemma load_body_step i j t t' :
  load_body i j t = Some t' ->
  (Z.to_nat (idx t) < length (accessor_matrix_a t))%nat
  /\ (Z.to_nat (idx t) < length (accessor_matrix_b t))%nat
  /\ accessor_matrix_a t' = accessor_matrix_a t
  /\ accessor_matrix_b t' = accessor_matrix_b t
  /\ idx t' = size_add (idx t) 1.
Proof.
  unfold load_body. intros Hrun.
  apply bind_Some in Hrun as (va & Hva & Hrun).
  apply bind_Some in Hrun as (a' & _ & Hrun).
  apply bind_Some in Hrun as (vb & Hvb & Hrun).
  apply bind_Some in Hrun as (b' & _ & Hrun).
  apply bind_Some in Hrun as (tmp' & _ & Hrun).
  injection Hrun as <-. cbn in Hvb |- *.
  apply lookup_lt_Some in Hva, Hvb. done.
Qed.

Lemma store_body_step i j t t' :
  store_body i j t = Some t' ->
  (Z.to_nat (idx t) < length (accessor_res t))%nat
  /\ length (accessor_res t') = length (accessor_res t)
  /\ idx t' = size_add (idx t) 1.
Proof.
  unfold store_body, accessor_put. intros Hrun.
  apply bind_Some in Hrun as (v & _ & Hrun).
  apply bind_Some in Hrun as (res' & Hput & Hrun).
  injection Hrun as <-. cbn.
  destruct (Z.to_nat (idx t) <? length (accessor_res t))%nat eqn:Hlt;
    [|discriminate].
  injection Hput as <-. apply Nat.ltb_lt in Hlt.
  now rewrite length_insert.
Qed.

(** A run of the load body over [ps] positions reads the [length ps]
    cells that follow [idx] in both inputs. *)
Lemma load_run_bounds ps t t' :
  run_over (fun p => load_body p.1 p.2) ps t = Some t' ->
  0 <= idx t -> idx t + Z.of_nat (length ps) < size_modulus ->
  ps <> [] ->
  (Z.to_nat (idx t) + length ps <= length (accessor_matrix_a t))%nat
  /\ (Z.to_nat (idx t) + length ps <= length (accessor_matrix_b t))%nat.
Proof.
  revert t. induction ps as [|p ps IH]; intros t Hrun Hi Hn Hne; [done|].
  cbn [run_over] in Hrun. apply bind_Some in Hrun as (t1 & Hstep & Hrun).
  apply load_body_step in Hstep as (Ha & Hb & Ea & Eb & Ei).
  cbn [length] in *.
  unfold size_add in Ei. rewrite size_wrap_small in Ei by lia.
  destruct ps as [|q ps]; [cbn [length]; lia|].
  destruct (IH t1 Hrun) as [Ha' Hb']; [lia|cbn [length] in *; lia|done|].
  rewrite Ea, Eb, Ei in *. cbn [length] in *. lia.
Qed.

Lemma store_run_bounds ps t t' :
  run_over (fun p => store_body p.1 p.2) ps t = Some t' ->
  0 <= idx t -> idx t + Z.of_nat (length ps) < size_modulus ->
  ps <> [] ->
  (Z.to_nat (idx t) + length ps <= length (accessor_res t))%nat.
Proof.
  revert t. induction ps as [|p ps IH]; intros t Hrun Hi Hn Hne; [done|].
  cbn [run_over] in Hrun. apply bind_Some in Hrun as (t1 & Hstep & Hrun).
  apply store_body_step in Hstep as (Hr & Er & Ei).
  cbn [length] in *.
  unfold size_add in Ei. rewrite size_wrap_small in Ei by lia.
  destruct ps as [|q ps]; [cbn [length]; lia|].
  pose proof (IH t1 Hrun) as Hr'. rewrite Er, Ei in Hr'.
  cbn [length] in *.
  specialize (Hr' ltac:(lia) ltac:(lia) ltac:(discriminate)). lia.
Qed.

(** A kernel that completes found 16 cells in each of its buffers. *)
Lemma KernelCompute_needs_16 cf s s' :
  KernelCompute cf s = Some s' ->
  (16 <= length (accessor_matrix_a s))%nat
  /\ (16 <= length (accessor_matrix_b s))%nat
  /\ (16 <= length (accessor_res s))%nat.
Proof.
  unfold KernelCompute. intros Hrun.
  apply bind_Some in Hrun as (s1 & H1 & Hrun).
  apply bind_Some in Hrun as (s2 & H2 & H3).
  pose proof (load_phase_res cf s s1 H1) as E1.
  pose proof (multiply_phase_res cf s1 s2 H2) as E2.
  pose proof size_modulus_big as Hbig.
  unfold load_phase in H1. rewrite phase_as_run in H1.
  apply load_run_bounds in H1 as [Ha Hb];
    [|cbn; lia|cbn; lia|discriminate].
  unfold store_phase in H3. rewrite phase_as_run in H3.
  apply store_run_bounds in H3; [|cbn; lia|cbn; lia|discriminate].
  cbn in Ha, Hb, H3. rewrite <- E1, <- E2. lia.
Qed.

(** Symbolic run of the baseline kernel on buffers of at least 16
    cells. *)
Lemma KernelCompute_baseline_prefix s :
  (16 <= length (accessor_matrix_a s))%nat ->
  (16 <= length (accessor_matrix_b s))%nat ->
  (16 <= length (accessor_res s))%nat ->
  exists s' out,
    KernelCompute factor_1 s = Some s'
    /\ spec_result (accessor_matrix_a s) (accessor_matrix_b s) = Some out
    /\ spec_result (take 16 (accessor_matrix_a s))
                   (take 16 (accessor_matrix_b s)) = Some out
    /\ accessor_res s' = out ++ drop 16 (accessor_res s)
    /\ idx s' = 16
    /\ row_major (a s') = take 16 (accessor_matrix_a s)
    /\ row_major (b s') = take 16 (accessor_matrix_b s)
    /\ row_major (tmp s') = out.
Proof.
  destruct s as [A B R i0 a0 b0 t0].
  cbn [accessor_matrix_a accessor_matrix_b accessor_res].
  intros HA HB HR.
  explode_prefix A HA. explode_prefix B HB. explode_prefix R HR.
  match goal with
  | |- exists s' out, ?run = Some s' /\ ?spec = Some out
                      /\ ?spec16 = Some out /\ _ /\ _
                      /\ _ = ?tA /\ _ = ?tB /\ _ =>
      assert (exists out, spec = Some out) as [out Hout]
        by (vm_compute; eexists; reflexivity);
      assert (spec16 = spec) as E16 by (vm_compute; reflexivity);
      rewrite E16; clear E16;
      assert (accessor_res <$> run = (fun o => o ++ R) <$> spec) as Er
        by (vm_compute; reflexivity);
      assert (idx <$> run = Some 16) as Ei by (vm_compute; reflexivity);
      assert ((fun t => row_major (a t)) <$> run = Some tA)
        as Ea by (vm_compute; reflexivity);
      assert ((fun t => row_major (b t)) <$> run = Some tB)
        as Eb by (vm_compute; reflexivity);
      assert ((fun t => row_major (tmp t)) <$> run = spec) as Et
        by (vm_compute; reflexivity);
      rewrite Hout in Er, Et |- *;
      destruct run as [s'|]; [|discriminate Ei]
  end.
  exists s', out. cbn [drop].
  repeat split; try (apply (inj Some); assumption).
Qed.
End KernelBounds.

(** X1. Bounds: [MatrixMultiply] stays within its three vectors exactly
    when each of them has at least 16 elements; with a shorter input or
    output vector the kernel indexes past the end of a buffer. *)
Theorem MatrixMultiply_in_bounds_iff
        (cf : coalesce_factor) (matrix_a matrix_b res : list Binary32.f32)
        (u : Kernel.indeterminate (F := Binary32.f32)) :
  is_Some (Kernel.MatrixMultiply cf matrix_a matrix_b res u)
  <-> (16 <= length matrix_a)%nat /\ (16 <= length matrix_b)%nat
      /\ (16 <= length res)%nat.
Proof.
  unfold Kernel.MatrixMultiply. split.
  - intros [out Hout]. apply bind_Some in Hout as (s' & Hrun & _).
    apply KernelCompute_needs_16 in Hrun.
    cbn [Kernel.submit Kernel.accessor_matrix_a Kernel.accessor_matrix_b
         Kernel.accessor_res] in Hrun.
    now rewrite length_map, length_seq in Hrun.
  - intros (HA & HB & HR).
    destruct (KernelCompute_baseline_prefix
                (Kernel.submit matrix_a matrix_b res u))
      as (s' & out & Hrun & _);
      cbn [Kernel.submit Kernel.accessor_matrix_a Kernel.accessor_matrix_b
           Kernel.accessor_res]; try done.
    { now rewrite length_map, length_seq. }
    destruct cf; [|rewrite KernelCompute_factor]; rewrite Hrun; eexists; reflexivity.
Qed.

(** X2. Footprint: on buffers of at least 16 cells the kernel completes
    and writes cells 0..15 of the output buffer only, the cells from 16 on
    keeping what they held; it reads cells 0..15 of the inputs only; at
    the end [idx] is 16, [a] and [b] hold the first 16 cells of the inputs
    and [tmp] the 16 results. *)
Theorem kernel_footprint
        (cf : coalesce_factor) (s : Kernel.state (F := Binary32.f32)) :
  (16 <= length (Kernel.accessor_matrix_a s))%nat ->
  (16 <= length (Kernel.accessor_matrix_b s))%nat ->
  (16 <= length (Kernel.accessor_res s))%nat ->
  exists s' out,
    Kernel.KernelCompute cf s = Some s'
    /\ spec_result (take 16 (Kernel.accessor_matrix_a s))
                   (take 16 (Kernel.accessor_matrix_b s)) = Some out
    /\ Kernel.accessor_res s' = out ++ drop 16 (Kernel.accessor_res s)
    /\ length (Kernel.accessor_res s') = length (Kernel.accessor_res s)
    /\ Kernel.idx s' = 16
    /\ Kernel.row_major (Kernel.a s') = take 16 (Kernel.accessor_matrix_a s)
    /\ Kernel.row_major (Kernel.b s') = take 16 (Kernel.accessor_matrix_b s)
    /\ Kernel.row_major (Kernel.tmp s') = out.
Proof.
  intros HA HB HR.
  destruct (KernelCompute_baseline_prefix s HA HB HR)
    as (s' & out & Hrun & _ & Hspec & Hres & Hidx & Ha & Hb & Ht).
  exists s', out.
  split; [destruct cf; [|rewrite KernelCompute_factor]; exact Hrun|].
  assert (length out = 16%nat) as Hlen by (eapply spec_result_length, Hspec).
  repeat split; try done.
  rewrite Hres, length_app, length_drop. lia.
Qed.

Lemma kernel_footprint_witness :
  exists s' out,
    Kernel.KernelCompute factor_2
      (Kernel.submit (replicate 20 (Binary32.of_Z 3))
                     (replicate 17 (Binary32.of_Z 5))
                     (replicate 18 Binary32.zero) nan_junk) = Some s'
    /\ Kernel.accessor_res s' = out ++ [S754_nan; S754_nan]
    /\ length out = 16%nat.
Proof.
  destruct (kernel_footprint factor_2
              (Kernel.submit (replicate 20 (Binary32.of_Z 3))
                             (replicate 17 (Binary32.of_Z 5))
                             (replicate 18 Binary32.zero) nan_junk))
    as (s' & out & Hrun & Hspec & Hres & _); [vm_compute; lia..|].
  exists s', out. split; [exact Hrun|]. split; [exact Hres|].
  eapply spec_result_length, Hspec.
Defined.

(** X3. Loop coalescing in general: for every loop body, every initial
    state and all [size_t] bounds whose product does not overflow, the
    merged loop (one counter, indices recovered by division and
    remainder) gives the same result as the nest, including the runs
    that stop in undefined behaviour, and both hand the body the
    [rows*cols] index pairs in row-major order, each once. *)
Theorem coalescing_preserves_any_nest
        (St : Type) (body : size_t -> size_t -> St -> option St)
        (rows cols : size_t) (s : St) :
  0 <= rows < size_modulus -> 0 <= cols < size_modulus ->
  rows * cols < size_modulus ->
  loop_coalesce factor_2 rows cols body s
  = loop_coalesce factor_1 rows cols body s
  /\ visit_order (loop_coalesce factor_2 rows cols)
     = Some (unmerged_pairs (Z.to_nat rows) (Z.to_nat cols))
  /\ visit_order (loop_coalesce factor_1 rows cols)
     = Some (unmerged_pairs (Z.to_nat rows) (Z.to_nat cols))
  /\ NoDup (unmerged_pairs (Z.to_nat rows) (Z.to_nat cols))
  /\ length (unmerged_pairs (Z.to_nat rows) (Z.to_nat cols))
     = Z.to_nat (rows * cols).
Proof.
  intros Hr Hc Hrc.
  assert (visit_order (loop_coalesce factor_1 rows cols)
          = Some (unmerged_pairs (Z.to_nat rows) (Z.to_nat cols))) as Hnest.
  { unfold visit_order. cbn [loop_coalesce].
    rewrite nested_loop_run by lia. apply run_over_collect. }
  split; [apply loop_coalesce_sound; first [assumption | lia]|].
  split; [unfold visit_order in *;
          rewrite loop_coalesce_sound by first [assumption | lia];
          exact Hnest|].
  split; [exact Hnest|].
  split; [apply unmerged_pairs_NoDup|].
  rewrite unmerged_pairs_length, Z2Nat.inj_mul by lia. reflexivity.
Qed.

Lemma coalescing_preserves_any_nest_witness :
  loop_coalesce factor_2 3 5
    (fun i j acc => if i + j <? 6 then Some (acc + i * j) else None) 0
  = loop_coalesce factor_1 3 5
      (fun i j acc => if i + j <? 6 then Some (acc + i * j) else None) 0.
Proof.
  apply (coalescing_preserves_any_nest Z
           (fun i j acc => if i + j <? 6 then Some (acc + i * j) else None)
           3 5 0); vm_compute; split; congruence.
Defined.

(** ** binary32 facts used below *)

Lemma mul_comm (x y : Binary32.f32) : Binary32.mul x y = Binary32.mul y x.
Proof.
  unfold Binary32.mul.
  destruct x as [sx|sx| |sx mx ex], y as [sy|sy| |sy my ey];
    cbn [SFmul]; rewrite ?(xorb_comm sx sy); try reflexivity.
  now rewrite (Pos.mul_comm mx my), (Z.add_comm ex ey).
Qed.

Lemma digits2_pos_shift23 (m : positive) :
  Z.pos (digits2_pos (8388608 * m)) = Z.pos (digits2_pos m) + 23.
Proof. cbv [Pos.mul]. cbn [digits2_pos]. lia. Qed.

(** [1.0f * x] is [x]: the product needs no rounding. *)
Lemma one_mul_finite s m e :
  bounded Binary32.prec Binary32.emax m e = true ->
  Binary32.mul (Binary32.of_Z 1) (S754_finite s m e) = S754_finite s m e.
Proof.
  unfold bounded, canonical_mantissa, Binary32.prec, Binary32.emax.
  intros [Hc He]%andb_true_iff.
  apply Z.eqb_eq in Hc. apply Z.leb_le in He.
  change (Binary32.of_Z 1) with (S754_finite false 8388608 (-23)).
  unfold Binary32.mul, Binary32.prec, Binary32.emax, SFmul, binary_round_aux.
  cbn [xorb].
  unfold shr_fexp at 1. cbn [Zdigits2]. rewrite digits2_pos_shift23.
  replace (Z.pos (digits2_pos m) + 23 + (-23 + e))
    with (IntDef.Z.add (Z.pos (digits2_pos m)) e) by lia.
  rewrite Hc. replace (e - (-23 + e)) with 23 by lia.
  cbv [Pos.mul]. cbn [shr shr_record_of_loc SpecFloat.iter_pos shr_1 orb].
  replace (-23 + e + 23) with e by lia.
  cbn [shr_m loc_of_shr_record round_nearest_even].
  unfold shr_fexp. cbn [Zdigits2]. rewrite Hc, Z.sub_diag.
  cbn [shr shr_record_of_loc shr_m].
  now rewrite (proj2 (Z.leb_le _ _) He).
Qed.

Lemma add_zero_one_mul (x : Binary32.f32) :
  finite32 x = true ->
  Binary32.add Binary32.zero (Binary32.mul (Binary32.of_Z 1) x)
  = unsigned_zero x.
Proof.
  destruct x as [s| | |s m e]; try discriminate; intros Hx.
  - now destruct s.
  - rewrite one_mul_finite by exact Hx. reflexivity.
Qed.

Lemma add_zero_mul (x y : Binary32.f32) :
  finite32 x = true -> finite32 y = true ->
  Binary32.add (unsigned_zero y) (Binary32.mul (Binary32.of_Z 0) x)
  = unsigned_zero y.
Proof.
  intros Hx Hy.
  assert (exists s, Binary32.mul (Binary32.of_Z 0) x = S754_zero s) as [s ->].
  { destruct x as [s| | |s m e]; try discriminate; eexists; reflexivity. }
  destruct y as [sy| | |sy my ey]; try discriminate; now destruct s.
Qed.

Lemma add_zero_zero_mul (x : Binary32.f32) :
  finite32 x = true ->
  Binary32.add Binary32.zero (Binary32.mul (Binary32.of_Z 0) x)
  = Binary32.zero.
Proof. intros Hx. apply (add_zero_mul x Binary32.zero Hx eq_refl). Qed.

Lemma eqb_unsigned_zero (x : Binary32.f32) :
  finite32 x = true -> Binary32.eqb (unsigned_zero x) x = true.
Proof.
  destruct x as [s| | |s m e]; try discriminate; intros _; [reflexivity|].
  now apply eqb_finite.
Qed.

(** ** Transposition *)

Section Transposition.
Context {F : Type} `{FloatArith F}.
Hypothesis fmul_comm : forall x y : F, fmul x y = fmul y x.

(** With a commutative product, the specified output of the transposed
    operands in swapped order is the transpose of the specified output:
    the same products are accumulated in the same order. *)
Lemma spec_result_transpose (A B At Bt : list F) :
  length A = 16%nat -> length B = 16%nat ->
  transpose4 A = Some At -> transpose4 B = Some Bt ->
  spec_result Bt At = spec_result A B ≫= transpose4.
Proof using fmul_comm.
  intros HA HB HAt HBt.
  explode_list A HA. explode_list B HB.
  vm_compute in HAt, HBt.
  apply (inj Some) in HAt, HBt. subst At Bt.
  vm_compute. do 2 f_equal; repeat (f_equal; try apply fmul_comm).
Qed.
End Transposition.

(** X4. Transposition: for 16-element matrices A and B, running the
    kernel on the transpose of B and the transpose of A gives exactly
    the transpose of the result on A and B, with either factor; float
    rounding does not break the identity because every element
    accumulates the same products in the same order. *)
Theorem kernel_transpose
        (cf : coalesce_factor) (A B At Bt res : list Binary32.f32)
        (u : Kernel.indeterminate (F := Binary32.f32)) :
  length A = 16%nat -> length B = 16%nat -> length res = 16%nat ->
  transpose4 A = Some At -> transpose4 B = Some Bt ->
  exists out outT,
    Kernel.MatrixMultiply cf A B res u = Some out
    /\ Kernel.MatrixMultiply cf Bt At res u = Some outT
    /\ transpose4 out = Some outT.
Proof.
  intros HA HB HR HAt HBt.
  assert (length At = 16%nat /\ length Bt = 16%nat) as [HAt' HBt'].
  { unfold transpose4 in HAt, HBt.
    apply mapM_Some_1, Forall2_length in HAt, HBt.
    rewrite iota_length in HAt, HBt. done. }
  destruct (MatrixMultiply_result cf A B res u HA HB HR) as (out & Hrun & Hspec).
  destruct (MatrixMultiply_result cf Bt At res u HBt' HAt' HR)
    as (outT & HrunT & HspecT).
  exists out, outT. split; [exact Hrun|]. split; [exact HrunT|].
  rewrite (@spec_result_transpose Binary32.f32 binary32_arith mul_comm
             A B At Bt HA HB HAt HBt), Hspec
    in HspecT.
  exact HspecT.
Qed.

Lemma kernel_transpose_witness :
  exists out outT,
    Kernel.MatrixMultiply factor_2
      (map Binary32.of_Z [3; 1; 4; 1; 5; 9; 2; 6; 5; 3; 5; 8; 9; 7; 9; 3])
      (map Binary32.of_Z [1; 1; 1; 1; 1; 2; 3; 4; 1; 3; 5; 7; 1; 4; 7; 10])
      new_vector nan_junk = Some out
    /\ Kernel.MatrixMultiply factor_2
         (map Binary32.of_Z [1; 1; 1; 1; 1; 2; 3; 4; 1; 3; 5; 7; 1; 4; 7; 10])
         (map Binary32.of_Z [3; 5; 5; 9; 1; 9; 3; 7; 4; 2; 5; 9; 1; 6; 8; 3])
         new_vector nan_junk = Some outT
    /\ transpose4 out = Some outT.
Proof.
  apply (kernel_transpose factor_2
           (map Binary32.of_Z [3; 1; 4; 1; 5; 9; 2; 6; 5; 3; 5; 8; 9; 7; 9; 3])
           (map Binary32.of_Z [1; 1; 1; 1; 1; 2; 3; 4; 1; 3; 5; 7; 1; 4; 7; 10]));
    reflexivity.
Defined.

(** ** The identity as left operand *)

Lemma spec_result_identity (B : list Binary32.f32) :
  length B = 16%nat ->
  Forall (fun x => finite32 x = true) B ->
  spec_result identity4 B = Some (map unsigned_zero B).
Proof.
  intros HB Hfin. explode_list B HB.
  repeat match goal with
         | Hf : Forall _ (_ :: _) |- _ =>
             apply Forall_cons_1 in Hf as [? Hf]
         end.
  clear Hfin.
  cbv - [Binary32.add Binary32.mul Binary32.of_Z Binary32.zero unsigned_zero].
  repeat first [ rewrite add_zero_zero_mul by assumption
               | rewrite add_zero_one_mul by assumption
               | rewrite add_zero_mul by assumption ].
  reflexivity.
Qed.

(** X5. Identity: with the matrix that [main] stores in [matrix_a] as
    left operand and any 16 finite floats as right operand, the kernel
    returns the right operand itself, element by element, except that a
    negative zero comes back as positive zero; every result compares
    equal ([==]) to the operand's element.  This is what makes i*j+1 the
    expected value of the check. *)
Theorem identity_returns_right_operand
        (cf : coalesce_factor) (B res : list Binary32.f32)
        (u : Kernel.indeterminate (F := Binary32.f32)) :
  length B = 16%nat -> length res = 16%nat ->
  Forall (fun x => finite32 x = true) B ->
  fst <$> init_matrices = Some identity4
  /\ Kernel.MatrixMultiply cf identity4 B res u = Some (map unsigned_zero B)
  /\ Forall2 (fun o b => Binary32.eqb o b = true) (map unsigned_zero B) B.
Proof.
  intros HB HR Hfin.
  split; [now rewrite init_matrices_value|].
  split.
  - destruct (MatrixMultiply_result cf identity4 B res u eq_refl HB HR)
      as (out & -> & Hspec).
    now rewrite <- Hspec, spec_result_identity.
  - clear HB. induction Hfin as [|x B Hx _ IH]; [constructor|].
    cbn [map]. constructor; [now apply eqb_unsigned_zero|exact IH].
Qed.

Lemma identity_returns_right_operand_witness :
  Kernel.MatrixMultiply factor_2 identity4
    (S754_zero true :: map Binary32.of_Z [-3; 16777215; 4; 0; 6; 100; 8; -9; 10; 1; 12; 2; 14; 7; 1024])
    new_vector nan_junk
  = Some (Binary32.zero :: map Binary32.of_Z [-3; 16777215; 4; 0; 6; 100; 8; -9; 10; 1; 12; 2; 14; 7; 1024]).
Proof.
  apply (identity_returns_right_operand factor_2
           (S754_zero true :: map Binary32.of_Z [-3; 16777215; 4; 0; 6; 100; 8; -9; 10; 1; 12; 2; 14; 7; 1024])
           new_vector nan_junk);
    [reflexivity | reflexivity |
     repeat (apply List.Forall_cons; [reflexivity|]); apply List.Forall_nil].
Defined.

(** ** The whole program *)

Lemma main_check_trace :
  exists trace,
    correctness_check
      (map Binary32.of_Z [1; 1; 1; 1; 1; 2; 3; 4; 1; 3; 5; 7; 1; 4; 7; 10])
      (map Binary32.of_Z [1; 1; 1; 1; 1; 2; 3; 4; 1; 3; 5; 7; 1; 4; 7; 10])
    = Some (0, trace)
    /\ printed trace = ["PASSED: The results are correct"%string]
    /\ loaded output_no_col trace = iota 16
    /\ loaded output_col trace = iota 16.
Proof. eexists. repeat split; vm_compute; reflexivity. Qed.

(** X6. End to end: whatever the device is called and whatever the
    uninitialised storage of the two kernels holds, [main] returns 0; it
    prints the device line of each kernel and then the PASSED line, and
    no failure line; its check has loaded all 16 elements of both result
    vectors. *)
Theorem main_returns_0
        (device : string)
        (u1 u2 : Kernel.indeterminate (F := Binary32.f32)) :
  exists trace,
    main device u1 u2 = Some (0, trace)
    /\ printed trace
       = [("Running on device: " ++ device)%string;
          ("Running on device: " ++ device)%string;
          "PASSED: The results are correct"%string]
    /\ loaded output_no_col trace = iota 16
    /\ loaded output_col trace = iota 16.
Proof.
  destruct main_check_trace as (trace & Hcheck & Hprinted & Hl1 & Hl2).
  unfold main. rewrite init_matrices_value.
  rewrite bind_Some_l. cbv beta iota.
  rewrite (main_kernel_result factor_1 u1), bind_Some_l.
  rewrite (main_kernel_result factor_2 u2), bind_Some_l.
  rewrite Hcheck, bind_Some_l. cbv beta iota.
  eexists. split; [reflexivity|].
  cbn [printed loaded flat_map app]. fold (printed trace).
  fold (loaded output_no_col trace). fold (loaded output_col trace).
  now rewrite Hprinted, Hl1, Hl2.
Qed.

(** X7. Device selection: [main] prints PASSED and returns 0 exactly
    when both queues are constructed.  When the first construction
    throws, nothing is written to [std::cout]; when the second throws,
    only the device line of the first kernel is.  In both cases the
    process is terminated without a verdict and without an exit status,
    and [std::cerr] holds the line announcing the exception, the text of
    the exception and, exactly when its code is CL_DEVICE_NOT_FOUND, the
    three lines of advice. *)
Theorem main_by_backend
        (CL_DEVICE_NOT_FOUND : Z) (be1 be2 : Host.backend)
        (u1 u2 : Kernel.indeterminate (F := Binary32.f32)) :
  Host.main CL_DEVICE_NOT_FOUND be1 be2 u1 u2
  = match be1, be2 with
    | Host.device_found d1, Host.device_found d2 =>
        Some (Host.returned 0,
              {| Host.cout := [("Running on device: " ++ d1)%string;
                               ("Running on device: " ++ d2)%string;
                               "PASSED: The results are correct"%string];
                 Host.cerr := [] |})
    | Host.device_found d1, Host.queue_throws exc =>
        Some (Host.terminated,
              {| Host.cout := [("Running on device: " ++ d1)%string];
                 Host.cerr := Host.report CL_DEVICE_NOT_FOUND exc |})
    | Host.queue_throws exc, _ =>
        Some (Host.terminated,
              {| Host.cout := [];
                 Host.cerr := Host.report CL_DEVICE_NOT_FOUND exc |})
    end
  /\ forall exc,
       take 2 (Host.report CL_DEVICE_NOT_FOUND exc)
       = ["Caught synchronous SYCL exception:"%string; Host.what exc]
       /\ length (Host.report CL_DEVICE_NOT_FOUND exc)
          = if Host.code_value exc =? CL_DEVICE_NOT_FOUND then 5%nat else 2%nat.
Proof.
  destruct main_check_trace as (trace & Hcheck & Hprinted & _).
  split.
  - unfold Host.main. rewrite init_matrices_value.
    destruct be1 as [d1|exc1]; [|reflexivity].
    unfold Host.MatrixMultiply at 1.
    rewrite (main_kernel_result factor_1 u1).
    destruct be2 as [d2|exc2]; [|reflexivity].
    unfold Host.MatrixMultiply.
    rewrite (main_kernel_result factor_2 u2), Hcheck.
    cbn [Host.cout Host.cerr app]. now rewrite Hprinted.
  - intros exc. unfold Host.report. split; [reflexivity|].
    destruct (_ =? _); reflexivity.
Qed.

(** ** The multiply phase on its own *)

Section MultiplyPhase.
Context {F : Type} `{FloatArith F}.
Import Kernel.
Implicit Types (s t : state (F := F)) (cf : coalesce_factor).

Lemma multiply_body_frame s0 i j t t' :
  multiply_body i j t = Some t' -> multiply_frame s0 t -> multiply_frame s0 t'.
Proof.
  unfold multiply_body, multiply_frame. intros Hrun Ht.
  repeat (apply bind_Some in Hrun as (? & _ & Hrun)).
  now injection Hrun as <-.
Qed.

Lemma row_major_length (x : size_t -> size_t -> F) :
  length (row_major x) = 16%nat.
Proof. unfold row_major. now rewrite length_map, iota_length. Qed.

Lemma spec_result_total (A B : list F) :
  length A = 16%nat -> length B = 16%nat -> is_Some (spec_result A B).
Proof.
  intros HA HB. explode_list A HA. explode_list B HB.
  vm_compute. eexists. reflexivity.
Qed.

Lemma multiply_phase_tmp cf s :
  (fun t => row_major (tmp t)) <$> multiply_phase cf s
  = spec_result (row_major (a s)) (row_major (b s)).
Proof.
  assert (multiply_phase cf s = multiply_phase factor_1 s) as ->.
  { destruct cf; [reflexivity|]. destruct kernel_dims as (? & ? & ?).
    unfold multiply_phase. apply loop_coalesce_sound; assumption. }
  destruct s as [A B R i0 a0 b0 t0]. vm_compute. reflexivity.
Qed.
End MultiplyPhase.

(** X8. Multiply phase: from any state, with either factor, the multiply
    phase completes (it indexes the local arrays only, always in bounds);
    afterwards [tmp[i][j]] is the sum over k of [a[i][k] * b[k][j]] for
    all 16 positions, whatever [tmp] held before, and [a], [b], [idx] and
    the three buffers are unchanged. *)
Theorem multiply_phase_contract
        (cf : coalesce_factor) (s : Kernel.state (F := Binary32.f32)) :
  exists s' out,
    Kernel.multiply_phase cf s = Some s'
    /\ spec_result (Kernel.row_major (Kernel.a s))
                   (Kernel.row_major (Kernel.b s)) = Some out
    /\ Kernel.row_major (Kernel.tmp s') = out
    /\ Kernel.multiply_frame s s'.
Proof.
  pose proof (multiply_phase_tmp cf s) as Htmp.
  destruct (spec_result_total (Kernel.row_major (Kernel.a s))
                              (Kernel.row_major (Kernel.b s)))
    as [out Hspec]; [apply row_major_length..|].
  rewrite Hspec in Htmp.
  apply fmap_Some in Htmp as (s' & Hrun & Hout).
  exists s', out. split; [exact Hrun|]. split; [exact Hspec|].
  split; [now rewrite Hout|].
  unfold Kernel.multiply_phase in Hrun.
  eapply (loop_coalesce_invariant (Kernel.multiply_frame s)) in Hrun;
    [exact Hrun|apply multiply_body_frame|].
  repeat split.
Qed.

(** ** Infinities and NaN in the right operand *)

Lemma zero_mul_inf_or_nan (x : Binary32.f32) :
  inf_or_nan x = true -> Binary32.mul (Binary32.of_Z 0) x = S754_nan.
Proof. destruct x; try discriminate; reflexivity. Qed.

Lemma add_nan_r (x : Binary32.f32) : Binary32.add x S754_nan = S754_nan.
Proof. now destruct x. Qed.

Lemma add_nan_l (x : Binary32.f32) : Binary32.add S754_nan x = S754_nan.
Proof. reflexivity. Qed.

Lemma spec_sum_poisoned (B : list Binary32.f32) (i j k : Z) (x : Binary32.f32) :
  length B = 16%nat ->
  0 <= i < 4 -> 0 <= j < 4 -> 0 <= k < 4 -> i <> k ->
  B !! Z.to_nat (k * 4 + j) = Some x -> inf_or_nan x = true ->
  spec_sum identity4 B i j = Some S754_nan.
Proof.
  intros HB Hi Hj Hk Hik Hx Hbad. explode_list B HB.
  small_index i; small_index j; small_index k; try (now elim Hik);
    clear Hik; cbn in Hx; injection Hx as ->;
    cbv - [Binary32.add Binary32.mul Binary32.of_Z Binary32.zero];
    rewrite (zero_mul_inf_or_nan x Hbad), add_nan_r, ?add_nan_l;
    reflexivity.
Qed.

(** X9. Non-finite operands: with the identity as left operand, an
    infinity or a NaN at [B[k][j]] turns every other element of column j
    of the result into NaN (0.0f times it is NaN, and NaN is absorbing
    for the sum), so on such a B the kernel does not return B. *)
Theorem identity_poisoned_by_inf_or_nan
        (cf : coalesce_factor) (B res : list Binary32.f32)
        (u : Kernel.indeterminate (F := Binary32.f32))
        (i j k : Z) (x : Binary32.f32) :
  length B = 16%nat -> length res = 16%nat ->
  0 <= i < 4 -> 0 <= j < 4 -> 0 <= k < 4 -> i <> k ->
  B !! Z.to_nat (k * 4 + j) = Some x -> inf_or_nan x = true ->
  exists out,
    Kernel.MatrixMultiply cf identity4 B res u = Some out
    /\ out !! Z.to_nat (i * 4 + j) = Some S754_nan.
Proof.
  intros HB HR Hi Hj Hk Hik Hx Hbad.
  destruct (MatrixMultiply_result cf identity4 B res u eq_refl HB HR)
    as (out & Hrun & Hspec).
  destruct (spec_result_lookup identity4 B out i j Hspec Hi Hj)
    as (v & Hv & Hsum).
  exists out. split; [exact Hrun|].
  rewrite (spec_sum_poisoned B i j k x HB Hi Hj Hk Hik Hx Hbad) in Hsum.
  apply (inj Some) in Hsum. now subst v.
Qed.

Lemma identity_poisoned_by_inf_or_nan_witness :
  exists out,
    Kernel.MatrixMultiply factor_1 identity4
      (<[6%nat := S754_infinity false]> (replicate 16 (Binary32.of_Z 2)))
      new_vector nan_junk = Some out
    /\ out !! Z.to_nat (3 * 4 + 2) = Some S754_nan.
Proof.
  apply (identity_poisoned_by_inf_or_nan factor_1
           (<[6%nat := S754_infinity false]> (replicate 16 (Binary32.of_Z 2)))
           new_vector nan_junk 3 2 1 (S754_infinity false));
    (reflexivity || lia).
Defined.
